(** * sql-navigator.py: the SQL dump parser ([SQLDumpParser]) and the
    navigator ([SpreadsheetNavigator])

    A shallow embedding of [sql-navigator.py]: of its parsing half, the
    statement extraction by regular expressions, the column definition
    parser [_extract_columns], the tuple splitter [_split_values], the value
    coercer [_parse_values] and the table registry built by [parse]; of
    its navigator, the paging, the row search and the command loops read
    from the standard input, without the terminal output.

    Modelling conventions.
    - A Python [str] is a [list ascii]; the model covers ASCII text, and
      the character classes ([\s], [\w], [\d], [str.upper], [str.strip])
      are those of Python restricted to code points below 128.
    - Python's [re] module is embedded as a backtracking matcher in
      continuation-passing style over a small regex syntax ([Re.regex]);
      the patterns of the source are values of that syntax.
    - The values of a row are [None], [int], [float] and [str]: the type
      [Value].  A float is an IEEE binary64 number ([spec_float]).
    - [self.tables] is an insertion-ordered association list; the
      per-tuple dictionary [row] of [parse] is a [gmap].
    - [print] under [self.verbose] does not change the result and is left
      out. *)

From Stdlib Require Import ZArith Lia Bool.
From Stdlib Require Import Ascii String.
From Stdlib Require Import Floats.SpecFloat.
From Stdlib Require Import DecimalString DecimalPos DecimalZ.
From stdpp Require Import base list gmap strings.

Local Open Scope Z_scope.

(** ** Python strings *)

Definition str := list ascii.

Coercion list_ascii_of_string : string >-> list.

Module Py.

Definition ord (c : ascii) : nat := nat_of_ascii c.

Definition between (lo hi n : nat) : bool := Nat.leb lo n && Nat.leb n hi.

(** [str.isspace] on ASCII: TAB, LF, VT, FF, CR, FS, GS, RS, US, SPACE. *)
Definition isspace (c : ascii) : bool :=
  between 9 13 (ord c) || between 28 32 (ord c).

Definition isdigit (c : ascii) : bool := between 48 57 (ord c).

Definition isupper (c : ascii) : bool := between 65 90 (ord c).

Definition islower (c : ascii) : bool := between 97 122 (ord c).

Definition isalpha (c : ascii) : bool := isupper c || islower c.

(** [\w] of [re] on ASCII: letters, digits and the underscore. *)
Definition isword (c : ascii) : bool :=
  isalpha c || isdigit c || Nat.eqb (ord c) 95.

Definition upper_char (c : ascii) : ascii :=
  if islower c then ascii_of_nat (ord c - 32) else c.

Definition lower_char (c : ascii) : ascii :=
  if isupper c then ascii_of_nat (ord c + 32) else c.

Definition ceqb (a b : ascii) : bool := Ascii.eqb a b.

Fixpoint str_eqb (a b : str) : bool :=
  match a, b with
  | [], [] => true
  | x :: a', y :: b' => ceqb x y && str_eqb a' b'
  | _, _ => false
  end.

(** [s.isascii()] *)
Definition isascii (s : str) : bool :=
  forallb (fun c => Nat.ltb (ord c) 128) s.

(** [s.upper()] *)
Definition upper (s : str) : str := map upper_char s.

(** [s.lower()] *)
Definition lower (s : str) : str := map lower_char s.

Fixpoint lstrip_by (p : ascii -> bool) (s : str) : str :=
  match s with
  | [] => []
  | c :: s' => if p c then lstrip_by p s' else s
  end.

Definition rstrip_by (p : ascii -> bool) (s : str) : str :=
  rev (lstrip_by p (rev s)).

Definition strip_by (p : ascii -> bool) (s : str) : str :=
  rstrip_by p (lstrip_by p s).

(** [s.strip()] *)
Definition strip (s : str) : str := strip_by isspace s.

Definition mem_char (chars : str) (c : ascii) : bool :=
  existsb (ceqb c) chars.

(** [s.strip(chars)] *)
Definition strip_chars (chars s : str) : str := strip_by (mem_char chars) s.

(** [s.startswith(p)] *)
Fixpoint startswith (s p : str) {struct p} : bool :=
  match p, s with
  | [], _ => true
  | x :: p', c :: s' => ceqb x c && startswith s' p'
  | _ :: _, [] => false
  end.

(** [s.startswith((p1, ..., pn))] *)
Definition startswith_any (s : str) (ps : list str) : bool :=
  existsb (startswith s) ps.

(** [s.endswith(p)] *)
Definition endswith (s p : str) : bool := startswith (rev s) (rev p).

(** An index of a slice: negative indices count from the end, and the
    result is clamped to [0, len]. *)
Definition slice_index (len i : Z) : nat :=
  Z.to_nat (Z.min len (Z.max 0 (if i <? 0 then len + i else i))).

(** [s[lo:hi]] *)
Definition slice (s : str) (lo hi : Z) : str :=
  let len := Z.of_nat (length s) in
  let a := slice_index len lo in
  let b := slice_index len hi in
  firstn (b - a) (skipn a s).

(** [s.split(sep)] for a one-character separator. *)
Fixpoint split_char (sep : ascii) (s : str) : list str :=
  match s with
  | [] => [[]]
  | c :: s' =>
      if ceqb c sep then [] :: split_char sep s'
      else match split_char sep s' with
           | [] => [[c]]
           | piece :: rest => (c :: piece) :: rest
           end
  end.

(** [s.replace(old, new)] for a non-empty [old]: the occurrences of
    [old] are found from left to right and do not overlap.  [skip] counts
    the characters of an occurrence that are still to be passed over. *)
Fixpoint replace_from (old new : str) (skip : nat) (s : str) : str :=
  match s with
  | [] => []
  | c :: s' =>
      match skip with
      | S k => replace_from old new k s'
      | O =>
          if startswith s old
          then new ++ replace_from old new (length old - 1) s'
          else c :: replace_from old new 0 s'
      end
  end.

Definition replace (s old new : str) : str := replace_from old new 0 s.

(** The truth value of a string or of a list. *)
Definition truthy {A} (l : list A) : bool :=
  match l with [] => false | _ => true end.

(** *** [int] and [float] on the literals the coercer passes to them *)

Definition digit_val (c : ascii) : Z := Z.of_nat (ord c - 48).

Definition digits_val (ds : str) : Z :=
  fold_left (fun acc c => 10 * acc + digit_val c) ds 0.

Definition all_digits (ds : str) : bool :=
  truthy ds && forallb isdigit ds.

(** [sys.int_info.default_max_str_digits]: [int] raises [ValueError] on
    a decimal literal with more digits. *)
Definition max_str_digits : nat := 4300.

(** [int(s)] for a literal without surrounding blanks; [None] stands for
    [ValueError]. *)
Definition int (s : str) : option Z :=
  let '(neg, ds) :=
    match s with
    | "-"%char :: ds => (true, ds)
    | "+"%char :: ds => (false, ds)
    | _ => (false, s)
    end in
  if all_digits ds && Nat.leb (length ds) max_str_digits
  then Some (if neg then - digits_val ds else digits_val ds)
  else None.

(** binary64 *)
Definition prec : Z := 53.
Definition emax : Z := 1024.

Definition pow10 (k : nat) : positive := Nat.iter k (Pos.mul 10) 1%positive.

(** The binary64 number nearest to [(-1)^neg * m / 10^k]. *)
Definition decimal_to_float (neg : bool) (m : Z) (k : nat) : spec_float :=
  match m with
  | Zpos p =>
      SFdiv prec emax (S754_finite neg p 0) (S754_finite false (pow10 k) 0)
  | _ => S754_zero neg
  end.

(** [float(s)] for a literal of the shape [-?digits.digits]; [None]
    stands for [ValueError]. *)
Definition float (s : str) : option spec_float :=
  let '(neg, body) :=
    match s with
    | "-"%char :: b => (true, b)
    | "+"%char :: b => (false, b)
    | _ => (false, s)
    end in
  match split_char "."%char body with
  | [ip; fp] =>
      if truthy (ip ++ fp) && forallb isdigit (ip ++ fp)
      then Some (decimal_to_float neg (digits_val (ip ++ fp)) (length fp))
      else None
  | _ => None
  end.

End Py.

Definition strs (l : list string) : list str := map list_ascii_of_string l.

(** ** Python's [re]: a backtracking matcher *)

Module Re.

(** The syntax of the patterns the source uses.  A one-character item (a
    literal, a class such as [\s] or [[^,]], the dot) is [Chr] with its
    predicate; [Star true] is the greedy [*], [Star false] the lazy [*?];
    [NotAhead] is the negative lookahead [(?!...)]; [Bol] and [Eol] are
    [^] and [$]. *)
Inductive regex : Type :=
| Eps : regex
| Chr (p : ascii -> bool) : regex
| Seq (a b : regex) : regex
| Alt (a b : regex) : regex
| Star (greedy : bool) (a : regex) : regex
| Group (i : nat) (a : regex) : regex
| NotAhead (a : regex) : regex
| Bol : regex
| Eol : regex.

(** The groups captured so far, the latest binding first. *)
Definition caps := list (nat * str).

(** The iterations of a star whose body is matched by [body], followed
    by the continuation [k]: the greedy star tries one more iteration
    first, the lazy one tries [k] first.  An iteration that consumes
    nothing is not taken, so [n], the length of the rest when the star is
    entered, bounds the iterations. *)
Definition star_loop {R : Type} (greedy : bool)
           (body : str -> caps -> (str -> caps -> option R) -> option R)
           (k : str -> caps -> option R) : nat -> str -> caps -> option R :=
  fix loop (n : nat) (s : str) (g : caps) {struct n} : option R :=
    match n with
    | O => k s g
    | S n' =>
        let again s' g' :=
          if Nat.ltb (length s') (length s) then loop n' s' g' else None in
        if greedy then
          match body s g again with
          | Some x => Some x
          | None => k s g
          end
        else
          match k s g with
          | Some x => Some x
          | None => body s g again
          end
    end.

(** [run whole r s g k] matches [r] at the front of the rest [s] of the
    subject [whole] and hands every way of doing so, in the priority order
    of a backtracking engine, to the continuation [k]; the first success
    of [k] is the result. *)
Fixpoint run (R : Type) (whole : str) (r : regex) (s : str) (g : caps)
         (k : str -> caps -> option R) {struct r} : option R :=
  match r with
  | Eps => k s g
  | Chr p =>
      match s with
      | c :: s' => if p c then k s' g else None
      | [] => None
      end
  | Seq a b => run R whole a s g (fun s' g' => run R whole b s' g' k)
  | Alt a b =>
      match run R whole a s g k with
      | Some x => Some x
      | None => run R whole b s g k
      end
  | Star greedy a =>
      star_loop greedy (fun s' g' k' => run R whole a s' g' k') k
                (length s) s g
  | Group i a =>
      run R whole a s g
          (fun s' g' => k s' ((i, firstn (length s - length s') s) :: g'))
  | NotAhead a =>
      match run unit whole a s g (fun _ _ => Some tt) with
      | Some _ => None
      | None => k s g
      end
  | Bol => if Nat.eqb (length s) (length whole) then k s g else None
  | Eol =>
      match s with
      | [] => k s g
      | [c] => if Py.ceqb c "010"%char then k s g else None
      | _ => None
      end
  end.

Arguments run {R} whole r s g k.

(** Derived forms. *)
Definition Plus (greedy : bool) (a : regex) : regex := Seq a (Star greedy a).
Definition Opt (a : regex) : regex := Alt a Eps.

Fixpoint seqs (rs : list regex) : regex :=
  match rs with
  | [] => Eps
  | [r] => r
  | r :: rs' => Seq r (seqs rs')
  end.

(** One literal character; [ic] is [re.IGNORECASE]. *)
Definition chr (ic : bool) (c : ascii) : regex :=
  Chr (fun x => if ic then Py.ceqb (Py.lower_char x) (Py.lower_char c)
                else Py.ceqb x c).

(** A literal text. *)
Definition lit (ic : bool) (t : str) : regex := seqs (map (chr ic) t).

(** [\s], [\w], [\d], a negated set [[^...]], and the dot under
    [re.DOTALL]. *)
Definition space : regex := Chr Py.isspace.
Definition word : regex := Chr Py.isword.
Definition digit : regex := Chr Py.isdigit.
Definition none_of (chars : str) : regex :=
  Chr (fun x => negb (Py.mem_char chars x)).
Definition any : regex := Chr (fun _ => true).

(** A match object: [m.start()], [m.end()], [m.group(0)] and the groups. *)
Record Match : Type := mkMatch {
  m_start : nat;
  m_end : nat;
  m_text : str;
  m_caps : caps
}.

(** [m.group(i)]; [None] when the group took no part in the match. *)
Fixpoint lookup_cap (g : caps) (i : nat) : option str :=
  match g with
  | [] => None
  | (j, t) :: g' => if Nat.eqb i j then Some t else lookup_cap g' i
  end.

Definition group (m : Match) (i : nat) : option str := lookup_cap (m_caps m) i.

(** A match of [r] that starts where the rest [s] of [whole] starts. *)
Definition match_at (r : regex) (whole s : str) : option Match :=
  run whole r s []
      (fun s' g =>
         Some (mkMatch (length whole - length s) (length whole - length s')
                       (firstn (length s - length s') s) g)).

(** The truth value of the result of [re.match]. *)
Definition matched (o : option Match) : bool :=
  match o with Some _ => true | None => false end.

(** [re.match(r, s)] *)
Definition re_match (r : regex) (s : str) : option Match := match_at r s s.

(** [r.finditer(s)]: the leftmost match, then the leftmost match after
    its end, and so on.  [skip] counts the characters of the last match
    still to be passed over.  (The patterns of the source match no empty
    text; after an empty match the scan here moves on by one character.) *)
Fixpoint finditer_from (r : regex) (whole : str) (skip : nat) (s : str)
  : list Match :=
  match skip with
  | S k =>
      match s with
      | [] => []
      | _ :: s' => finditer_from r whole k s'
      end
  | O =>
      match match_at r whole s with
      | Some m =>
          m :: match s with
               | [] => []
               | _ :: s' => finditer_from r whole (m_end m - m_start m - 1) s'
               end
      | None =>
          match s with
          | [] => []
          | _ :: s' => finditer_from r whole 0 s'
          end
      end
  end.

Definition finditer (r : regex) (s : str) : list Match :=
  finditer_from r s 0 s.

(** [r.findall(s)] for a pattern without groups. *)
Definition findall (r : regex) (s : str) : list str :=
  map m_text (finditer r s).

(** [re.split(r, s)] for a pattern without groups: the texts between the
    matches. *)
Fixpoint pieces (s : str) (pos : nat) (ms : list Match) : list str :=
  match ms with
  | [] => [skipn pos s]
  | m :: ms' => firstn (m_start m - pos) (skipn pos s) :: pieces s (m_end m) ms'
  end.

Definition split (r : regex) (s : str) : list str :=
  pieces s 0 (finditer r s).

End Re.

Import Re.

(** ** The patterns of [SQLDumpParser] *)

(** [r"CREATE TABLE\s+`?(\w+)`?\s*\((.*?)\)\s*ENGINE="] with
    [re.IGNORECASE | re.DOTALL] *)
Definition create_table_regex : regex :=
  seqs [ lit true "CREATE TABLE"; Plus true space;
         Opt (chr true "`"); Group 1 (Plus true word); Opt (chr true "`");
         Star true space;
         chr true "("; Group 2 (Star false any); chr true ")";
         Star true space; lit true "ENGINE=" ].

(** [r"INSERT INTO\s+`?(\w+)`?\s*(?:\(([^)]+)\))?\s+VALUES\s+(.+?);"] with
    [re.IGNORECASE | re.DOTALL] *)
Definition insert_into_regex : regex :=
  seqs [ lit true "INSERT INTO"; Plus true space;
         Opt (chr true "`"); Group 1 (Plus true word); Opt (chr true "`");
         Star true space;
         Opt (seqs [ chr true "("; Group 2 (Plus true (none_of ")")); chr true ")" ]);
         Plus true space; lit true "VALUES"; Plus true space;
         Group 3 (Plus false any); chr true ";" ].

(** [r",\s*(?![^()]*\))"] in [_extract_columns] *)
Definition column_split_regex : regex :=
  seqs [ chr false ","; Star true space;
         NotAhead (Seq (Star true (none_of "()")) (chr false ")")) ].

(** [r"`?(\w+)`?\s+[^,]*"] in [_extract_columns] *)
Definition column_regex : regex :=
  seqs [ Opt (chr false "`"); Group 1 (Plus true word); Opt (chr false "`");
         Plus true space; Star true (none_of ",") ].

(** The verbose pattern of [_parse_values], with [re.IGNORECASE]:
    ['(?:\\'|[^'])*' | NULL | [^,]+] *)
Definition value_regex : regex :=
  Alt (seqs [ chr true "'";
              Star true (Alt (Seq (chr true "\") (chr true "'")) (none_of "'"));
              chr true "'" ])
      (Alt (lit true "NULL") (Plus true (none_of ","))).

(** [r'^-?\d+$'] *)
Definition int_regex : regex :=
  seqs [ Bol; Opt (chr false "-"); Plus true digit; Eol ].

(** [r'^-?\d+\.\d*$'] *)
Definition float_regex : regex :=
  seqs [ Bol; Opt (chr false "-"); Plus true digit; chr false ".";
         Star true digit; Eol ].

(** ** The data model *)

(** A cell of a row: [None], an [int], a [float] or a [str]. *)
Inductive Value : Type :=
| Null : Value
| Integer (n : Z) : Value
| Float (f : spec_float) : Value
| Text (s : str) : Value.

(** [{'columns': columns, 'rows': rows}] *)
Record Table : Type := mkTable {
  t_columns : list str;
  t_rows : list (list Value)
}.

(** [self.tables]: a [dict], which keeps the order of insertion. *)
Definition Tables := list (str * Table).

(** [name in tables] / [tables[name]] *)
Fixpoint dict_get (tables : Tables) (name : str) : option Table :=
  match tables with
  | [] => None
  | (k, t) :: rest => if Py.str_eqb k name then Some t else dict_get rest name
  end.

(** [tables[name] = t]: a known key keeps its place, a new one goes last. *)
Fixpoint dict_set (tables : Tables) (name : str) (t : Table) : Tables :=
  match tables with
  | [] => [(name, t)]
  | (k, t0) :: rest =>
      if Py.str_eqb k name then (k, t) :: rest
      else (k, t0) :: dict_set rest name t
  end.

(** ** [_extract_columns] *)

Definition constraint_keywords : list str :=
  strs ["PRIMARY KEY"; "KEY"; "UNIQUE KEY"; "CONSTRAINT"].

(** The body of the loop over [column_lines]: the column name a fragment
    contributes, if any. *)
Definition column_of_line (line : str) : option str :=
  let line := Py.strip line in
  match re_match column_regex line with
  | Some col_match =>
      if negb (Py.startswith_any (Py.upper line) constraint_keywords)
      then group col_match 1
      else None
  | None => None
  end.

Definition _extract_columns (columns_def : str) : list str :=
  let column_lines := Re.split column_split_regex columns_def in
  fold_left (fun columns line =>
               match column_of_line line with
               | Some column_name => columns ++ [column_name]
               | None => columns
               end)
            column_lines [].

(** ** [_split_values] *)

(** The local variables of the scan. *)
Record SplitState : Type := mkSplit {
  values : list str;
  current : str;
  depth : Z;
  in_string : bool;
  escape : bool
}.

Definition split_init : SplitState := mkSplit [] [] 0 false false.

(** One turn of [for char in values_str]. *)
Definition split_step (st : SplitState) (char : ascii) : SplitState :=
  let in_string :=
    if Py.ceqb char "'" && negb (escape st)
    then negb (in_string st) else in_string st in
  let escape :=
    if Py.ceqb char "\" && in_string then negb (escape st) else false in
  let depth :=
    if Py.ceqb char "(" && negb in_string then depth st + 1
    else if Py.ceqb char ")" && negb in_string then depth st - 1
    else depth st in
  if Py.ceqb char "," && (depth =? 0) && negb in_string then
    if Py.truthy (Py.strip (current st))
    then mkSplit (values st ++ [Py.strip (current st)]) [] depth in_string escape
    else mkSplit (values st) (current st) depth in_string escape
  else mkSplit (values st) (current st ++ [char]) depth in_string escape.

Definition split_scan (values_str : str) : SplitState :=
  fold_left split_step values_str split_init.

Definition _split_values (values_str : str) : list str :=
  let st := split_scan values_str in
  if Py.truthy (Py.strip (current st))
  then values st ++ [Py.strip (current st)]
  else values st.

(** ** [_parse_values] *)

(** The body of the loop over [raw_values]: the value a token contributes;
    [None] is the [continue] on a blank token. *)
Definition coerce_token (raw : str) : option Value :=
  let raw := Py.strip raw in
  if negb (Py.truthy raw) then None
  else if Py.str_eqb (Py.upper raw) "NULL" then Some Null
  else if Py.startswith raw "'" && Py.endswith raw "'" then
    Some (Text (Py.replace (Py.replace (Py.slice raw 1 (-1)) "\'" "'") "\\" "\"))
  else if matched (re_match int_regex raw) then
    match Py.int raw with
    | Some n => Some (Integer n)
    | None => Some (Text raw)
    end
  else if matched (re_match float_regex raw) then
    match Py.float raw with
    | Some f => Some (Float f)
    | None => Some (Text raw)
    end
  else Some (Text raw).

(** [pattern.findall(val_str)] after [val_str.strip('()')]. *)
Definition tokenize (val_str : str) : list str :=
  findall value_regex (Py.strip_chars "()" val_str).

Definition _parse_values (val_str : str) : list Value :=
  fold_left (fun values raw =>
               match coerce_token raw with
               | Some v => values ++ [v]
               | None => values
               end)
            (tokenize val_str) [].

(** ** [parse] *)

(** The body of the loop over the matches of [create_table_regex]. *)
Definition create_step (tables : Tables) (m : Match) : Tables :=
  match group m 1, group m 2 with
  | Some table_name, Some columns_def =>
      let columns := _extract_columns columns_def in
      if Py.truthy columns
      then dict_set tables table_name (mkTable columns [])
      else tables
  | _, _ => tables
  end.

(** [row[col] = val] *)
Definition dict_put (row : gmap str Value) (cv : str * Value) : gmap str Value :=
  <[cv.1 := cv.2]> row.

(** [{col: val for col, val in zip(columns, parsed_row)}]: the pairs are
    put in their order, so that a later one replaces an earlier one of the
    same name. *)
Definition row_dict (columns : list str) (parsed_row : list Value) : gmap str Value :=
  fold_left dict_put (zip columns parsed_row) ∅.

(** [[row.get(col, None) for col in table_columns]] *)
Definition ordered_row (table_columns columns : list str) (parsed_row : list Value) : list Value :=
  let row := row_dict columns parsed_row in
  map (fun col => default Null (row !! col)) table_columns.

(** The truth value of [columns_str]: [None] and the empty text are
    false. *)
Definition given (columns_str : option str) : bool :=
  from_option Py.truthy false columns_str.

(** The body of the loop over the tuples of one insert statement. *)
Definition insert_row (table_name : str) (columns_str : option str)
           (columns : list str) (tables : Tables) (val : str) : Tables :=
  let parsed_row := _parse_values val in
  match dict_get tables table_name with
  | Some t =>
      if Py.truthy parsed_row then
        if given columns_str
        then dict_set tables table_name
               (mkTable (t_columns t)
                        (t_rows t ++ [ordered_row (t_columns t) columns parsed_row]))
        else dict_set tables table_name
               (mkTable (t_columns t) (t_rows t ++ [parsed_row]))
      else tables
  | None => tables
  end.

(** The body of the loop over the matches of [insert_into_regex]. *)
Definition insert_step (tables : Tables) (m : Match) : Tables :=
  match group m 1, group m 3 with
  | Some table_name, Some values_str =>
      let columns_str := group m 2 in
      match dict_get tables table_name with
      | None => tables
      | Some t =>
          let columns :=
            match columns_str with
            | Some cs =>
                if Py.truthy cs
                then map (Py.strip_chars " `") (Py.split_char "," cs)
                else t_columns t
            | None => t_columns t
            end in
          if given columns_str && negb (Nat.eqb (length columns) (length (t_columns t)))
          then tables
          else fold_left (insert_row table_name columns_str columns)
                         (_split_values values_str) tables
      end
  | _, _ => tables
  end.

(** [parse], on the text [content] read from the file, for a parser whose
    [self.tables] is still empty; the result is [self.tables]. *)
Definition parse (content : str) : Tables :=
  let tables := fold_left create_step (finditer create_table_regex content) [] in
  fold_left insert_step (finditer insert_into_regex content) tables.

(** The first match of a pattern in a text that holds one. *)
Definition first_match (r : regex) (text : str) : Match :=
  hd (mkMatch 0 0 [] []) (finditer r text).

(** The continuation [k] succeeds with [x] on some suffix of [s]. *)
Definition reaches_suffix {R : Type} (k : str -> caps -> option R) (s : str) (x : R)
  : Prop :=
  exists s' g', k s' g' = Some x /\ exists w : str, s = w ++ s'.

(** The text [mark] occurs in [s], in any letter case. *)
Fixpoint occurs_ci (mark s : str) : bool :=
  Py.startswith (Py.lower s) (Py.lower mark)
  || match s with
     | [] => false
     | _ :: s' => occurs_ci mark s'
     end.

(** The statement carries a column list. *)
Definition explicit_columns (m : Match) : bool := given (group m 2).

(** A registry to try the insert statements on: the table [t] with the
    columns [id], [name], [age] and one row. *)
Definition people : Tables :=
  [("t" : str,
    mkTable (strs ["id"; "name"; "age"]) [[Integer 1; Text "Al"; Integer 30]])].

(** Every row of the table is as long as its column list. *)
Definition rows_ok (t : Table) : Prop :=
  Forall (fun row => length row = length (t_columns t)) (t_rows t).

(** The columns a schema statement enters in the registry under [name]:
    those [_extract_columns] finds, when the statement names the table
    and there are some. *)
Definition declares (name : str) (m : Match) : option (list str) :=
  match group m 1, group m 2 with
  | Some table_name, Some columns_def =>
      let columns := _extract_columns columns_def in
      if Py.str_eqb table_name name && Py.truthy columns
      then Some columns
      else None
  | _, _ => None
  end.

(** The row is a tuple of an insert statement of the text for the table
    [name], written without a column list, stored as [_parse_values]
    returns it. *)
Definition stored_positionally (content name : str) (row : list Value) : Prop :=
  exists (m : Match) (values_str val : str),
    In m (finditer insert_into_regex content)
    /\ group m 1 = Some name
    /\ explicit_columns m = false
    /\ group m 3 = Some values_str
    /\ In val (_split_values values_str)
    /\ row = _parse_values val.

(** ** The splitter as the specification words it

    The scanner's state and its rules 1 to 3; rule 4: a comma at depth 0
    outside a string closes the current tuple text and starts a new one,
    every other character is added to the current tuple text; rule 5: the
    end of the input closes the last one.  The texts are then trimmed and
    the empty ones dropped. *)

Record Lex : Type := mkLex {
  l_in_string : bool;
  l_escape : bool;
  l_depth : Z
}.

Definition lex_init : Lex := mkLex false false 0.

Definition spec_lex_step (l : Lex) (c : ascii) : Lex :=
  let ins :=
    if Py.ceqb c "'" && negb (l_escape l) then negb (l_in_string l)
    else l_in_string l in
  let esc := if ins && Py.ceqb c "\" then negb (l_escape l) else false in
  let d :=
    if ins then l_depth l
    else if Py.ceqb c "(" then l_depth l + 1
    else if Py.ceqb c ")" then l_depth l - 1
    else l_depth l in
  mkLex ins esc d.

Definition top_level_comma (l : Lex) (c : ascii) : bool :=
  Py.ceqb c "," && (l_depth l =? 0) && negb (l_in_string l).

Fixpoint spec_segments (l : Lex) (cur : str) (s : str) : list str :=
  match s with
  | [] => [cur]
  | c :: s' =>
      let l' := spec_lex_step l c in
      if top_level_comma l' c then cur :: spec_segments l' [] s'
      else spec_segments l' (cur ++ [c]) s'
  end.

Definition spec_split (s : str) : list str :=
  List.filter Py.truthy (map Py.strip (spec_segments lex_init [] s)).

(** The part of the code's state the three rules speak of. *)
Definition lex_of (st : SplitState) : Lex :=
  mkLex (in_string st) (escape st) (depth st).

(** What the end of [_split_values] makes of the final state. *)
Definition split_finish (st : SplitState) : list str :=
  if Py.truthy (Py.strip (current st))
  then values st ++ [Py.strip (current st)]
  else values st.

(** The quoted form of a text: [\] before every quote and backslash. *)
Definition sql_escape (t : str) : str :=
  flat_map (fun c => if Py.ceqb c "'" then "\'" : str
                     else if Py.ceqb c "\" then "\\" : str
                     else [c]) t.

(** The text with its backslashes doubled and its quotes left alone. *)
Definition double_backslashes (t : str) : str :=
  flat_map (fun c => if Py.ceqb c "\" then "\\" : str else [c]) t.

(** An unquoted bare word: letters, digits and underscores, the first of
    them not a digit, and not the keyword [NULL] in any case. *)
Definition bare_word (w : str) : bool :=
  match w with
  | [] => false
  | c :: _ =>
      (Py.isalpha c || Py.ceqb c "_") && forallb Py.isword w
      && negb (Py.str_eqb (Py.upper w) "NULL")
  end.

(** The number of occurrences of a character. *)
Definition count_char (c : ascii) (s : str) : nat :=
  length (List.filter (Py.ceqb c) s).

(** ** What a pattern consumes

    [consumes r w g g']: the pattern [r] can consume the text [w], turning
    the captured groups [g] into [g'].  The lookahead and the anchors
    consume nothing; what they require of the context is left out, so the
    relation bounds the matches from above. *)
Inductive consumes : regex -> str -> caps -> caps -> Prop :=
| consumes_eps (g : caps) : consumes Eps [] g g
| consumes_chr (p : ascii -> bool) (c : ascii) (g : caps) :
    p c = true -> consumes (Chr p) [c] g g
| consumes_seq (a b : regex) (w1 w2 : str) (g g1 g2 : caps) :
    consumes a w1 g g1 -> consumes b w2 g1 g2 ->
    consumes (Seq a b) (w1 ++ w2) g g2
| consumes_alt_l (a b : regex) (w : str) (g g' : caps) :
    consumes a w g g' -> consumes (Alt a b) w g g'
| consumes_alt_r (a b : regex) (w : str) (g g' : caps) :
    consumes b w g g' -> consumes (Alt a b) w g g'
| consumes_star_nil (greedy : bool) (a : regex) (g : caps) :
    consumes (Star greedy a) [] g g
| consumes_star_more (greedy : bool) (a : regex) (w1 w2 : str) (g g1 g2 : caps) :
    consumes a w1 g g1 -> consumes (Star greedy a) w2 g1 g2 ->
    consumes (Star greedy a) (w1 ++ w2) g g2
| consumes_group (i : nat) (a : regex) (w : str) (g g' : caps) :
    consumes a w g g' -> consumes (Group i a) w g ((i, w) :: g')
| consumes_not_ahead (a : regex) (g : caps) : consumes (NotAhead a) [] g g
| consumes_bol (g : caps) : consumes Bol [] g g
| consumes_eol (g : caps) : consumes Eol [] g g.

(** The pattern can consume the empty text. *)
Fixpoint nullable (r : regex) : bool :=
  match r with
  | Eps => true
  | Chr _ => false
  | Seq a b => nullable a && nullable b
  | Alt a b => nullable a || nullable b
  | Star _ _ => true
  | Group _ a => nullable a
  | NotAhead _ => true
  | Bol => true
  | Eol => true
  end.

(** Every group [i] of the pattern captures only texts that satisfy
    [Q i]. *)
Fixpoint groups_hold (Q : nat -> str -> Prop) (r : regex) : Prop :=
  match r with
  | Seq a b => groups_hold Q a /\ groups_hold Q b
  | Alt a b => groups_hold Q a /\ groups_hold Q b
  | Star _ a => groups_hold Q a
  | Group i a =>
      (forall w g g', consumes a w g g' -> Q i w) /\ groups_hold Q a
  | _ => True
  end.

(** A non-empty text of letters, digits and underscores: what [\w+]
    captures. *)
Definition is_identifier (w : str) : bool :=
  Py.truthy w && forallb Py.isword w.

(** The text holds no character of [chars]. *)
Definition none_in (chars : str) (w : str) : bool :=
  forallb (fun c => negb (Py.mem_char chars c)) w.

(** What the groups of [create_table_regex] and of [column_regex]
    capture: group 1 is an identifier. *)
Definition name_group (i : nat) (w : str) : Prop :=
  i = 1%nat -> is_identifier w = true.

(** What the groups of [insert_into_regex] capture: group 1 is an
    identifier, group 2 a non-empty text without [)], group 3 a non-empty
    text. *)
Definition insert_group (i : nat) (w : str) : Prop :=
  (i = 1%nat -> is_identifier w = true)
  /\ (i = 2%nat -> w <> [] /\ none_in ")" w = true)
  /\ (i = 3%nat -> w <> []).

(** The names and the column lists of the registry, in its order. *)
Definition schema_of (tables : Tables) : list (str * list str) :=
  map (fun kt => (kt.1, t_columns kt.2)) tables.

(** [sep.join(l)] *)
Fixpoint join_with (sep : str) (l : list str) : str :=
  match l with
  | [] => []
  | [x] => x
  | x :: rest => x ++ sep ++ join_with sep rest
  end.

(** A text between parentheses. *)
Definition tuple_text (t : str) : str := "("%char :: t ++ [")"%char].

(** ** [SpreadsheetNavigator]

    The state of the navigator, the paging and search it computes, and the
    command loops of the fallback (non-curses) interface, [select_table]
    and [navigate].  What is printed is left out; a line read by [input]
    is an argument.  The three page sizes are set once by [__init__] and
    never assigned again: they are constants here. *)

(** [str(n)] for an [int]: its decimal form. *)
Definition str_of_int (n : Z) : str :=
  list_ascii_of_string (DecimalString.NilZero.string_of_int (Z.to_int n)).

Module Nav.

Section WithFloatRepr.

(** [str(x)] for a [float], Python's shortest decimal form that reads back
    as [x]: taken as given. *)
Variable float_repr : spec_float -> str.

(** [str(cell)] *)
Definition str_value (v : Value) : str :=
  match v with
  | Null => "None"
  | Integer n => str_of_int n
  | Float f => float_repr f
  | Text s => s
  end.

(** [sub in s] for two texts. *)
Fixpoint contains (s sub : str) : bool :=
  Py.startswith s sub
  || match s with
     | [] => false
     | _ :: s' => contains s' sub
     end.

(** [l[lo:hi]] for a list. *)
Definition slice_list {A : Type} (l : list A) (lo hi : Z) : list A :=
  let len := Z.of_nat (length l) in
  let a := Py.slice_index len lo in
  let b := Py.slice_index len hi in
  firstn (b - a) (skipn a l).

Definition len {A : Type} (l : list A) : Z := Z.of_nat (length l).

Record Navigator : Type := mkNav {
  tables : Tables;
  current_table : option Table;
  current_page : Z;
  current_col_page : Z;
  current_table_page : Z;
  all_rows : list (list Value);
  filtered_rows : list (list Value);
  search_active : bool;
  search_query : option str
}.

Definition page_size : Z := 20.
Definition col_page_size : Z := 5.
Definition table_page_size : Z := 20.

(** [__init__]; [search_query] is not set yet. *)
Definition init (tables : Tables) : Navigator :=
  mkNav tables None 0 0 0 [] [] false None.

(** [(total // size) + (1 if total % size else 0)] *)
Definition page_count (total size : Z) : Z :=
  total / size + (if total mod size =? 0 then 0 else 1).

(** The inner loop of [apply_row_search] over the cells of a row: whether
    it reaches the [append] before the row ends. *)
Fixpoint row_hit (query_lower : str) (row : list Value) : bool :=
  match row with
  | [] => false
  | cell :: rest =>
      if match cell with Null => false | _ => true end
         && contains (Py.lower (str_value cell)) query_lower
      then true
      else row_hit query_lower rest
  end.

Definition apply_row_search (nav : Navigator) (query : str) : Navigator :=
  let query_lower := Py.lower query in
  let filtered :=
    fold_left (fun acc row => if row_hit query_lower row then acc ++ [row] else acc)
              (all_rows nav) [] in
  mkNav (tables nav) (current_table nav) (current_page nav)
        (current_col_page nav) (current_table_page nav) (all_rows nav)
        filtered true (Some query).

Definition clear_row_search (nav : Navigator) : Navigator :=
  mkNav (tables nav) (current_table nav) (current_page nav)
        (current_col_page nav) (current_table_page nav) (all_rows nav)
        (all_rows nav) false (Some []).

(** *** [display_page]: what it selects for display *)

(** [page_data] *)
Definition page_data (nav : Navigator) : list (list Value) :=
  let start_row := current_page nav * page_size in
  let end_row := start_row + page_size in
  slice_list (filtered_rows nav) start_row end_row.

(** [display_columns], for the column list of the current table. *)
Definition display_columns (nav : Navigator) (columns : list str) : list str :=
  let start_col := current_col_page nav * col_page_size in
  let end_col := start_col + col_page_size in
  slice_list columns start_col end_col.

(** [display_data] *)
Definition display_data (nav : Navigator) : list (list Value) :=
  let start_col := current_col_page nav * col_page_size in
  let end_col := start_col + col_page_size in
  map (fun row => slice_list row start_col end_col) (page_data nav).

(** ['NULL' if val is None else str(val)] *)
Definition val_str (val : Value) : str :=
  match val with
  | Null => "NULL"
  | _ => str_value val
  end.

(** The inner loop of the column widths: one row's turn for column
    [idx]. *)
Definition widen (idx : nat) (max_len : Z) (row : list Value) : Z :=
  match row !! idx with
  | None => max_len
  | Some val =>
      if len (val_str val) >? max_len
      then Z.min (len (val_str val)) 30
      else max_len
  end.

(** [max_len + 2] for the column [col] at [idx]. *)
Definition col_width (data : list (list Value)) (idx : nat) (col : str) : Z :=
  fold_left (widen idx) data (len col) + 2.

(** [col_widths], a dictionary from the column names. *)
Definition col_widths (columns : list str) (data : list (list Value)) : gmap str Z :=
  fold_left (fun d ic => <[ic.2 := col_width data ic.1 ic.2]> d)
            (zip (seq 0 (length columns)) columns) ∅.

(** The text shown for a cell: [val_str], cut to 27 characters and three
    dots when longer than 30. *)
Definition cell_text (val : Value) : str :=
  let s := val_str val in
  if len s >? 30 then slice_list s 0 27 ++ "..." else s.

(** *** The command loops *)

(** How one turn of a loop ends: the loop goes on, it is left by [break],
    the program exits, or an exception is raised. *)
Inductive Outcome : Type :=
| Continue (nav : Navigator)
| Break (nav : Navigator)
| Exit
| Raise.

(** [tables_on_page] *)
Definition tables_on_page (nav : Navigator) : list str :=
  let start_idx := current_table_page nav * table_page_size in
  let end_idx := start_idx + table_page_size in
  slice_list (map fst (tables nav)) start_idx end_idx.

(** The table chosen: the pages start again and the rows are those of the
    table. *)
Definition choose (nav : Navigator) (t : Table) : Navigator :=
  mkNav (tables nav) (Some t) 0 0 0 (t_rows t) (t_rows t) false
        (search_query nav).

(** One turn of the loop of [select_table], for the line read.  The class
    has no method [search_table]: the command [s] raises. *)
Definition select_table_turn (nav : Navigator) (line : str) : Outcome :=
  let total_tables := len (tables nav) in
  let total_table_pages := page_count total_tables table_page_size in
  let selection := Py.lower (Py.strip line) in
  if Py.str_eqb selection "q" then Exit
  else if Py.str_eqb selection "n" then
    if current_table_page nav + 1 <? total_table_pages
    then Continue (mkNav (tables nav) (current_table nav) (current_page nav)
                         (current_col_page nav) (current_table_page nav + 1)
                         (all_rows nav) (filtered_rows nav) (search_active nav)
                         (search_query nav))
    else Continue nav
  else if Py.str_eqb selection "p" then
    if current_table_page nav >? 0
    then Continue (mkNav (tables nav) (current_table nav) (current_page nav)
                         (current_col_page nav) (current_table_page nav - 1)
                         (all_rows nav) (filtered_rows nav) (search_active nav)
                         (search_query nav))
    else Continue nav
  else if Py.str_eqb selection "s" then Raise
  else if Py.all_digits selection then
    match Py.int selection with
    | None => Raise
    | Some table_num =>
        if (1 <=? table_num) && (table_num <=? len (tables_on_page nav)) then
          match tables_on_page nav !! Z.to_nat (table_num - 1) with
          | Some table_name =>
              match dict_get (tables nav) table_name with
              | Some t => Break (choose nav t)
              | None => Raise
              end
          | None => Raise
          end
        else Continue nav
    end
  else Continue nav.

(** One turn of the inner loop of [navigate], for the line read and, for
    the command [/], the line read next. *)
Definition navigate_turn (nav : Navigator) (line query_line : str) : Outcome :=
  let cmd := Py.lower (Py.strip line) in
  if Py.str_eqb cmd "n" then
    if (current_page nav + 1) * page_size >=? len (filtered_rows nav)
    then Continue nav
    else Continue (mkNav (tables nav) (current_table nav) (current_page nav + 1)
                         (current_col_page nav) (current_table_page nav)
                         (all_rows nav) (filtered_rows nav) (search_active nav)
                         (search_query nav))
  else if Py.str_eqb cmd "p" then
    if current_page nav =? 0
    then Continue nav
    else Continue (mkNav (tables nav) (current_table nav) (current_page nav - 1)
                         (current_col_page nav) (current_table_page nav)
                         (all_rows nav) (filtered_rows nav) (search_active nav)
                         (search_query nav))
  else if Py.str_eqb cmd "l" then
    if current_col_page nav >? 0
    then Continue (mkNav (tables nav) (current_table nav) (current_page nav)
                         (current_col_page nav - 1) (current_table_page nav)
                         (all_rows nav) (filtered_rows nav) (search_active nav)
                         (search_query nav))
    else Continue nav
  else if Py.str_eqb cmd "r" then
    match current_table nav with
    | None => Raise
    | Some t =>
        let total_col_pages := page_count (len (t_columns t)) col_page_size in
        if current_col_page nav + 1 <? total_col_pages
        then Continue (mkNav (tables nav) (current_table nav) (current_page nav)
                             (current_col_page nav + 1) (current_table_page nav)
                             (all_rows nav) (filtered_rows nav) (search_active nav)
                             (search_query nav))
        else Continue nav
    end
  else if Py.str_eqb cmd "s" then
    Break (mkNav (tables nav) None (current_page nav)
                 (current_col_page nav) (current_table_page nav)
                 (all_rows nav) (filtered_rows nav) (search_active nav)
                 (search_query nav))
  else if Py.str_eqb cmd "/" then
    let search_query := Py.strip query_line in
    if Py.truthy search_query
    then Continue (apply_row_search nav search_query)
    else Continue nav
  else if Py.str_eqb cmd "c" then
    if search_active nav then Continue (clear_row_search nav) else Continue nav
  else if Py.str_eqb cmd "q" then Exit
  else Continue nav.

(** Where [navigate] stands: in the loop of [select_table], or in its
    inner loop with a table chosen. *)
Inductive Mode : Type := Selecting | Viewing.

(** How [navigate] stands when the lines to read are used up, or how it
    ended before. *)
Inductive Session : Type :=
| Waiting (mode : Mode) (nav : Navigator)
| Exited
| Raised.

(** [navigate] on the lines [input] returns one after the other. *)
Fixpoint navigate (mode : Mode) (nav : Navigator) (lines : list str) : Session :=
  match lines with
  | [] => Waiting mode nav
  | line :: rest =>
      match mode with
      | Selecting =>
          match select_table_turn nav line with
          | Continue nav' => navigate Selecting nav' rest
          | Break nav' => navigate Viewing nav' rest
          | Exit => Exited
          | Raise => Raised
          end
      | Viewing =>
          if Py.str_eqb (Py.lower (Py.strip line)) "/" then
            match rest with
            | [] => Waiting Viewing nav
            | query_line :: rest' =>
                match navigate_turn nav line query_line with
                | Continue nav' => navigate Viewing nav' rest'
                | Break nav' => navigate Selecting nav' rest'
                | Exit => Exited
                | Raise => Raised
                end
            end
          else
            match navigate_turn nav line [] with
            | Continue nav' => navigate Viewing nav' rest
            | Break nav' => navigate Selecting nav' rest
            | Exit => Exited
            | Raise => Raised
            end
      end
  end.

End WithFloatRepr.

End Nav.

(** The navigator turned to the row page [p]. *)
Definition at_page (nav : Nav.Navigator) (p : Z) : Nav.Navigator :=
  Nav.mkNav (Nav.tables nav) (Nav.current_table nav) p
            (Nav.current_col_page nav) (Nav.current_table_page nav)
            (Nav.all_rows nav) (Nav.filtered_rows nav) (Nav.search_active nav)
            (Nav.search_query nav).

(** The page number [page] is not negative and is the first one or
    starts before the end of the [total] items. *)
Definition paged_within (page size total : Z) : Prop :=
  0 <= page /\ (page = 0 \/ page * size < total).

(** A cell that makes its row a result of the search: it is not [None]
    and its text holds the query, letter case apart. *)
Definition cell_hit (float_repr : spec_float -> str) (query_lower : str)
           (cell : Value) : bool :=
  match cell with Null => false | _ => true end
  && Nav.contains (Py.lower (Nav.str_value float_repr cell)) query_lower.

(** What holds of the navigator all along [navigate]: the table page and
    the row page are in range, the filtered rows are among the rows of
    the table, in their order, and while a table is viewed it is set, its
    rows are the rows searched and its column page is in range. *)
Definition nav_ok (mode : Nav.Mode) (nav : Nav.Navigator) : Prop :=
  paged_within (Nav.current_table_page nav) 20 (Nav.len (Nav.tables nav))
  /\ paged_within (Nav.current_page nav) 20 (Nav.len (Nav.all_rows nav))
  /\ 0 <= Nav.current_col_page nav
  /\ sublist (Nav.filtered_rows nav) (Nav.all_rows nav)
  /\ (mode = Nav.Viewing ->
      exists t, Nav.current_table nav = Some t
                /\ Nav.all_rows nav = t_rows t
                /\ paged_within (Nav.current_col_page nav) 5 (Nav.len (t_columns t))).

(** A navigator to try the commands on: the table [t] of [people] chosen
    and its rows searched for [al], with floats shown as nothing. *)
Definition sample_view : Nav.Navigator :=
  Nav.apply_row_search (fun _ => [])
    (Nav.choose (Nav.init people)
       (mkTable (strs ["id"; "name"; "age"]) [[Integer 1; Text "Al"; Integer 30]]))
    "al".

(** One entry put into the dictionary of the column widths. *)
Definition width_put (float_repr : spec_float -> str) (data : list (list Value))
           (d : gmap str Z) (ic : nat * str) : gmap str Z :=
  <[ic.2 := Nav.col_width float_repr data ic.1 ic.2]> d.

(** The digits of a decimal number, as a text. *)
Definition digits_of (d : Decimal.uint) : str :=
  list_ascii_of_string (DecimalString.NilEmpty.string_of_uint d).

(** One turn of [Py.digits_val]. *)
Definition digit_step (acc : Z) (c : ascii) : Z := 10 * acc + Py.digit_val c.

(** * Properties *)

(** ** Strings *)

Section PyFacts.

Lemma ceqb_eq (a b : ascii) : Py.ceqb a b = true <-> a = b.
Proof. apply Ascii.eqb_eq. Qed.

Lemma ceqb_refl (a : ascii) : Py.ceqb a a = true.
Proof. apply Ascii.eqb_refl. Qed.

Lemma str_eqb_eq (a b : str) : Py.str_eqb a b = true <-> a = b.
Proof.
  revert b; induction a as [|x a IH]; intros [|y b]; simpl;
    try (split; [discriminate | congruence]); try tauto.
  rewrite andb_true_iff, ceqb_eq, IH. split.
  - intros [-> ->]; reflexivity.
  - intros H; injection H; auto.
Qed.

Lemma str_eqb_refl (a : str) : Py.str_eqb a a = true.
Proof. apply str_eqb_eq; reflexivity. Qed.

Variable p : ascii -> bool.

Lemma lstrip_by_all (ws x : str) :
  forallb p ws = true -> Py.lstrip_by p (ws ++ x) = Py.lstrip_by p x.
Proof.
  induction ws as [|c ws IH]; simpl; [reflexivity|].
  intros H; apply andb_true_iff in H as [Hc Hws].
  rewrite Hc; auto.
Qed.

Lemma lstrip_by_nil (x : str) :
  Py.lstrip_by p x = [] -> forallb p x = true.
Proof.
  induction x as [|c x IH]; simpl; [reflexivity|].
  destruct (p c); [exact IH | discriminate].
Qed.

Lemma strip_by_all (ws x : str) :
  forallb p ws = true -> Py.strip_by p (ws ++ x) = Py.strip_by p x.
Proof.
  intros H; unfold Py.strip_by; rewrite lstrip_by_all; auto.
Qed.

Lemma strip_by_nil (x : str) :
  Py.strip_by p x = [] -> forallb p x = true.
Proof.
  unfold Py.strip_by, Py.rstrip_by; intros H.
  apply (f_equal (@rev ascii)) in H; rewrite rev_involutive in H; simpl in H.
  apply lstrip_by_nil in H.
  rewrite forallb_forall in H.
  assert (Hl : Py.lstrip_by p x = []).
  { destruct (Py.lstrip_by p x) as [|c y] eqn:E; [reflexivity|].
    assert (Hc : p c = false).
    { clear H; induction x as [|d x IH]; simpl in E; [discriminate|].
      destruct (p d) eqn:Hd; [auto | congruence]. }
    rewrite (H c) in Hc; [discriminate|].
    apply in_rev; rewrite rev_involutive; left; reflexivity. }
  apply lstrip_by_nil; exact Hl.
Qed.

End PyFacts.

Lemma strip_blank_prefix (ws x : str) :
  forallb Py.isspace ws = true -> Py.strip (ws ++ x) = Py.strip x.
Proof. apply strip_by_all. Qed.

Lemma strip_nil_blank (x : str) :
  Py.strip x = [] -> forallb Py.isspace x = true.
Proof. apply strip_by_nil. Qed.

(** ** The tuple splitter [_split_values] *)

Section SplitValues.

Lemma split_values_unfold (s : str) :
  _split_values s = split_finish (fold_left split_step s split_init).
Proof. reflexivity. Qed.

Lemma split_scan_snoc (p : str) (c : ascii) :
  split_scan (p ++ [c]) = split_step (split_scan p) c.
Proof. unfold split_scan; rewrite fold_left_app; reflexivity. Qed.

(** The quoting state and the depth evolve by the three rules alone. *)
Lemma lex_of_step (st : SplitState) (c : ascii) :
  lex_of (split_step st c) = spec_lex_step (lex_of st) c.
Proof.
  unfold split_step, spec_lex_step, lex_of; simpl.
  destruct (Py.ceqb c "'"), (Py.ceqb c "\"), (Py.ceqb c "("), (Py.ceqb c ")"),
    (Py.ceqb c ","), (escape st), (in_string st); simpl;
    repeat match goal with
           | |- context [if ?b then _ else _] => destruct b; simpl
           end; reflexivity.
Qed.

Lemma split_step_cases (st : SplitState) (c : ascii) :
  let l' := spec_lex_step (lex_of st) c in
  split_step st c =
    if top_level_comma l' c then
      if Py.truthy (Py.strip (current st))
      then mkSplit (values st ++ [Py.strip (current st)]) []
                   (l_depth l') (l_in_string l') (l_escape l')
      else mkSplit (values st) (current st)
                   (l_depth l') (l_in_string l') (l_escape l')
    else mkSplit (values st) (current st ++ [c])
                 (l_depth l') (l_in_string l') (l_escape l').
Proof.
  unfold split_step, spec_lex_step, top_level_comma, lex_of; simpl.
  destruct (Py.ceqb c "'"), (Py.ceqb c "\"), (Py.ceqb c "("), (Py.ceqb c ")"),
    (Py.ceqb c ","), (escape st), (in_string st); simpl;
    repeat match goal with
           | |- context [if ?b then _ else _] => destruct b; simpl
           end; reflexivity.
Qed.

Lemma split_refines (s : str) :
  forall (st : SplitState) (cur ws : str),
    forallb Py.isspace ws = true ->
    current st = ws ++ cur ->
    split_finish (fold_left split_step s st)
    = values st
        ++ List.filter Py.truthy
             (map Py.strip (spec_segments (lex_of st) cur s)).
Proof.
  induction s as [|c s IH]; intros st cur ws Hws Hcur.
  - simpl. unfold split_finish. rewrite Hcur, strip_blank_prefix by exact Hws.
    destruct (Py.truthy (Py.strip cur)); [reflexivity | now rewrite app_nil_r].
  - simpl fold_left. simpl spec_segments.
    pose proof (lex_of_step st c) as Hl.
    rewrite (split_step_cases st c) in *. cbv zeta in *.
    assert (Hs : Py.strip (current st) = Py.strip cur)
      by (rewrite Hcur; apply strip_blank_prefix; exact Hws).
    destruct (top_level_comma (spec_lex_step (lex_of st) c) c).
    + destruct (Py.truthy (Py.strip (current st))) eqn:Ht.
      * erewrite (IH _ [] []); [|reflexivity|reflexivity].
        rewrite Hl. simpl. rewrite <- Hs, Ht. simpl.
        rewrite <- app_assoc. reflexivity.
      * assert (Hb : forallb Py.isspace (current st) = true).
        { apply strip_nil_blank.
          destruct (Py.strip (current st)); [reflexivity | discriminate]. }
        erewrite (IH _ [] (current st)); [|exact Hb|simpl; now rewrite app_nil_r].
        rewrite Hl. simpl. rewrite <- Hs, Ht. reflexivity.
    + erewrite (IH _ (cur ++ [c]) ws); [|exact Hws|simpl; rewrite Hcur; now rewrite app_assoc].
      rewrite Hl. reflexivity.
Qed.

(** One step moves the depth by at most one, down only on a [)] and up
    only on a [(]. *)
Lemma depth_step (st : SplitState) (c : ascii) :
  depth (split_step st c)
  = depth st
    + (if Py.ceqb c "(" && negb (in_string (split_step st c)) then 1
       else if Py.ceqb c ")" && negb (in_string (split_step st c)) then -1
       else 0).
Proof.
  rewrite split_step_cases. cbv zeta.
  unfold spec_lex_step, top_level_comma, lex_of; simpl.
  destruct (Py.ceqb c "'"), (Py.ceqb c "(") eqn:E1, (Py.ceqb c ")") eqn:E2,
    (Py.ceqb c ","), (escape st), (in_string st); simpl;
    repeat match goal with
           | |- context [if ?b then _ else _] => destruct b; simpl
           end; try lia;
    apply ceqb_eq in E1; apply ceqb_eq in E2; congruence.
Qed.

Lemma count_char_cons (c d : ascii) (s : str) :
  count_char c (d :: s) = ((if Py.ceqb c d then 1 else 0) + count_char c s)%nat.
Proof. unfold count_char; simpl. destruct (Py.ceqb c d); reflexivity. Qed.

Lemma depth_fold_bounds (s : str) :
  forall st : SplitState,
    depth st - Z.of_nat (count_char ")" s)
    <= depth (fold_left split_step s st)
    <= depth st + Z.of_nat (count_char "(" s).
Proof.
  induction s as [|c s IH]; intros st; simpl fold_left.
  - unfold count_char; simpl; lia.
  - specialize (IH (split_step st c)).
    rewrite !count_char_cons. rewrite depth_step in IH.
    unfold Py.ceqb in *.
    rewrite (Ascii.eqb_sym ")" c), (Ascii.eqb_sym "(" c).
    destruct (Ascii.eqb c "("), (Ascii.eqb c ")"),
      (in_string (split_step st c)); simpl in IH; simpl; lia.
Qed.

End SplitValues.

(** C5: [_split_values] splits a values body exactly at the commas met at
    depth 0 outside a string and adds every other character to the current
    tuple text: it computes what the specification's rules describe
    ([spec_split]); and the body [(1,'x,y'),(2,'(z)')] splits into the two
    tuple texts [(1,'x,y')] and [(2,'(z)')]. *)
Theorem C5_split_at_top_level_commas :
  (forall values_str : str, _split_values values_str = spec_split values_str)
  /\ _split_values "(1,'x,y'),(2,'(z)')" = strs ["(1,'x,y')"; "(2,'(z)')"].
Proof.
  split; [|vm_compute; reflexivity].
  intros s. rewrite split_values_unfold.
  rewrite (split_refines s split_init [] []); reflexivity.
Qed.

(** C9, as the claim states it, fails: after the one character [)] the
    depth is [-1]. *)
Lemma C9_counterexample :
  depth (split_scan ")") = -1 /\ ~ (0 <= depth (split_scan ")")).
Proof. split; [vm_compute; reflexivity | vm_compute; intros H; apply H; reflexivity]. Qed.

(** C9, amended: the depth is an integer without a lower bound at 0.  After
    every character it has moved by one up on a [(] outside a string, by
    one down on a [)] outside a string and not at all otherwise; so after
    any scanned text it lies between minus the number of [)] read and the
    number of [(] read. *)
Theorem C9_depth_bounds :
  forall (p : str),
    (- Z.of_nat (count_char ")" p) <= depth (split_scan p)
     <= Z.of_nat (count_char "(" p))
    /\ forall c : ascii,
        depth (split_scan (p ++ [c]))
        = depth (split_scan p)
          + (if Py.ceqb c "(" && negb (in_string (split_scan (p ++ [c]))) then 1
             else if Py.ceqb c ")" && negb (in_string (split_scan (p ++ [c]))) then -1
             else 0).
Proof.
  intros p. split.
  - pose proof (depth_fold_bounds p split_init) as H. simpl in H.
    unfold split_scan. lia.
  - intros c. rewrite split_scan_snoc. apply depth_step.
Qed.

(** ** The value coercer [_parse_values] *)

Section Coercion.

Lemma lstrip_by_keep (p : ascii -> bool) (w : str) :
  (forall c, In c w -> p c = false) -> Py.lstrip_by p w = w.
Proof.
  destruct w as [|c w]; intros H; simpl; [reflexivity|].
  rewrite (H c); [reflexivity | left; reflexivity].
Qed.

Lemma strip_by_keep (p : ascii -> bool) (w : str) :
  (forall c, In c w -> p c = false) -> Py.strip_by p w = w.
Proof.
  intros H. unfold Py.strip_by, Py.rstrip_by.
  rewrite (lstrip_by_keep p w H), lstrip_by_keep.
  - apply rev_involutive.
  - intros c Hc. apply H. apply in_rev. exact Hc.
Qed.

Lemma strip_by_ends (p : ascii -> bool) (a b : ascii) (x : str) :
  p a = false -> p b = false ->
  Py.strip_by p (a :: x ++ [b]) = a :: x ++ [b].
Proof.
  intros Ha Hb. unfold Py.strip_by, Py.rstrip_by. simpl. rewrite Ha.
  assert (Hr : rev (a :: x ++ [b]) = b :: rev x ++ [a])
    by (simpl; rewrite rev_app_distr; reflexivity).
  rewrite Hr. simpl. rewrite Hb. simpl. rewrite rev_app_distr. simpl.
  rewrite rev_involutive. reflexivity.
Qed.

Lemma slice_inner (a b : ascii) (x : str) :
  Py.slice (a :: x ++ [b]) 1 (-1) = x.
Proof.
  assert (Hl : length (a :: x ++ [b]) = S (S (length x)))
    by (simpl; rewrite length_app; simpl; lia).
  assert (H1 : Py.slice_index (Z.of_nat (S (S (length x)))) 1 = 1%nat)
    by (unfold Py.slice_index; change (1 <? 0) with false; cbv iota; lia).
  assert (H2 : Py.slice_index (Z.of_nat (S (S (length x)))) (-1) = S (length x))
    by (unfold Py.slice_index; change (-1 <? 0) with true; cbv iota; lia).
  unfold Py.slice. rewrite Hl, H1, H2.
  simpl. rewrite Nat.sub_0_r, drop_0. apply take_app_length.
Qed.

Lemma replace_from_here (old new : str) (c : ascii) (s : str) :
  Py.replace_from old new 0 (c :: s)
  = if Py.startswith (c :: s) old
    then new ++ Py.replace_from old new (length old - 1) s
    else c :: Py.replace_from old new 0 s.
Proof. reflexivity. Qed.

Lemma replace_from_skip (old new : str) (k : nat) (c : ascii) (s : str) :
  Py.replace_from old new (S k) (c :: s) = Py.replace_from old new k s.
Proof. reflexivity. Qed.

Lemma startswith_cons (c d : ascii) (s p : str) :
  Py.startswith (c :: s) (d :: p) = Py.ceqb d c && Py.startswith s p.
Proof. reflexivity. Qed.

Lemma sql_escape_cons (c : ascii) (t : str) :
  sql_escape (c :: t)
  = (if Py.ceqb c "'" then ["\"%char; "'"%char]
     else if Py.ceqb c "\" then ["\"%char; "\"%char] else [c])
      ++ sql_escape t.
Proof. reflexivity. Qed.

Lemma double_backslashes_cons (c : ascii) (t : str) :
  double_backslashes (c :: t)
  = (if Py.ceqb c "\" then ["\"%char; "\"%char] else [c])
      ++ double_backslashes t.
Proof. reflexivity. Qed.

Lemma sql_escape_not_quote (t : str) :
  Py.startswith (sql_escape t) ["'"%char] = false.
Proof.
  destruct t as [|c t]; [reflexivity|].
  rewrite sql_escape_cons.
  destruct (Py.ceqb c "'") eqn:E'; [reflexivity|].
  destruct (Py.ceqb c "\") eqn:E; [reflexivity|].
  change ([c] ++ sql_escape t) with (c :: sql_escape t).
  rewrite startswith_cons.
  unfold Py.ceqb in *. rewrite Ascii.eqb_sym, E'. reflexivity.
Qed.

(** The first replacement, of [\'] by ['], undoes the escaping of the
    quotes and leaves the doubled backslashes. *)
Lemma replace_quotes (t : str) :
  Py.replace (sql_escape t) ["\"%char; "'"%char] ["'"%char]
  = double_backslashes t.
Proof.
  unfold Py.replace.
  induction t as [|c t IH]; [reflexivity|].
  rewrite sql_escape_cons, double_backslashes_cons.
  destruct (Py.ceqb c "'") eqn:Eq.
  - apply ceqb_eq in Eq. subst c.
    change (Py.ceqb "'" "\") with false. cbv iota.
    change (["\"%char; "'"%char] ++ sql_escape t)
      with ("\"%char :: "'"%char :: sql_escape t).
    rewrite replace_from_here, !startswith_cons, !ceqb_refl.
    change (Py.startswith (sql_escape t) []) with true.
    cbn [andb length Nat.sub]. rewrite replace_from_skip, IH. reflexivity.
  - destruct (Py.ceqb c "\") eqn:Eb.
    + apply ceqb_eq in Eb. subst c.
      change (["\"%char; "\"%char] ++ sql_escape t)
        with ("\"%char :: "\"%char :: sql_escape t).
      rewrite replace_from_here, !startswith_cons.
      change (Py.ceqb "'" "\") with false.
      cbn [andb]. rewrite replace_from_here, startswith_cons.
      rewrite sql_escape_not_quote, andb_false_r, IH. reflexivity.
    + change ([c] ++ sql_escape t) with (c :: sql_escape t).
      rewrite replace_from_here, startswith_cons.
      unfold Py.ceqb in *. rewrite Ascii.eqb_sym, Eb. cbn [andb].
      rewrite IH. reflexivity.
Qed.

(** The second replacement, of [\\] by [\], undoes the doubling. *)
Lemma replace_backslashes (t : str) :
  Py.replace (double_backslashes t) ["\"%char; "\"%char] ["\"%char] = t.
Proof.
  unfold Py.replace.
  induction t as [|c t IH]; [reflexivity|].
  rewrite double_backslashes_cons.
  destruct (Py.ceqb c "\") eqn:Eb.
  - apply ceqb_eq in Eb. subst c.
    change (["\"%char; "\"%char] ++ double_backslashes t)
      with ("\"%char :: "\"%char :: double_backslashes t).
    rewrite replace_from_here, !startswith_cons, !ceqb_refl.
    change (Py.startswith (double_backslashes t) []) with true.
    cbn [andb length Nat.sub]. rewrite replace_from_skip, IH. reflexivity.
  - change ([c] ++ double_backslashes t) with (c :: double_backslashes t).
    rewrite replace_from_here, startswith_cons.
    unfold Py.ceqb in *. rewrite Ascii.eqb_sym, Eb. cbn [andb].
    rewrite IH. reflexivity.
Qed.

End Coercion.

Lemma coerce_quoted (x : str) :
  coerce_token ("'"%char :: x ++ ["'"%char])
  = Some (Text (Py.replace (Py.replace x "\'" "'") "\\" "\")).
Proof.
  unfold coerce_token, Py.strip.
  rewrite strip_by_ends by reflexivity.
  cbn [Py.truthy negb].
  replace (Py.str_eqb (Py.upper ("'"%char :: x ++ ["'"%char])) "NULL")
    with false by reflexivity.
  replace (Py.startswith ("'"%char :: x ++ ["'"%char]) "'") with true
    by reflexivity.
  replace (Py.endswith ("'"%char :: x ++ ["'"%char]) "'") with true.
  - cbn [andb]. rewrite slice_inner. reflexivity.
  - unfold Py.endswith.
    replace (rev ("'"%char :: x ++ ["'"%char])) with ("'"%char :: rev x ++ ["'"%char])
      by (simpl; rewrite rev_app_distr; reflexivity).
    reflexivity.
Qed.

(** C7: coercing a quoted token undoes the escaping of its quotes and
    backslashes: the token made of a text with a backslash put before each
    of its quotes and backslashes, between two quotes, yields that text;
    the token ['O\'Brien'] yields [O'Brien] and the token ['a\\b'] yields
    [a\b], also as the only value of a tuple. *)
Theorem C7_quoted_token_unescaped :
  (forall t : str,
      coerce_token ("'"%char :: sql_escape t ++ ["'"%char]) = Some (Text t))
  /\ coerce_token "'O\'Brien'" = Some (Text "O'Brien")
  /\ coerce_token "'a\\b'" = Some (Text "a\b")
  /\ _parse_values "('O\'Brien')" = [Text "O'Brien"]
  /\ _parse_values "('a\\b')" = [Text "a\b"].
Proof.
  split; [|repeat split; vm_compute; reflexivity].
  intros t. rewrite coerce_quoted.
  change (list_ascii_of_string "\'") with ["\"%char; "'"%char].
  change (list_ascii_of_string "'") with ["'"%char].
  change (list_ascii_of_string "\\") with ["\"%char; "\"%char].
  change (list_ascii_of_string "\") with ["\"%char].
  rewrite replace_quotes, replace_backslashes. reflexivity.
Qed.

Section CoercionTotal.

(** Whatever the token, the loop body ends in one of its branches: it
    skips a blank token and appends one value for any other. *)
Lemma coerce_token_total (raw : str) :
  match coerce_token raw with
  | Some _ => Py.truthy (Py.strip raw) = true
  | None => Py.strip raw = []
  end.
Proof.
  unfold coerce_token.
  destruct (Py.strip raw) as [|c x] eqn:E; cbv zeta; cbn [Py.truthy negb];
    [reflexivity|].
  destruct (Py.str_eqb _ _); [reflexivity|].
  destruct (_ && _); [reflexivity|].
  destruct (matched (re_match int_regex _));
    [destruct (Py.int _); reflexivity|].
  destruct (matched (re_match float_regex _));
    [destruct (Py.float _); reflexivity|].
  reflexivity.
Qed.

Lemma coerce_token_null (raw : str) :
  Py.upper (Py.strip raw) = "NULL" -> coerce_token raw = Some Null.
Proof.
  intros H. unfold coerce_token. rewrite H.
  destruct (Py.strip raw); [discriminate H|]. reflexivity.
Qed.

(** The first character of a bare word is no blank, quote, sign or
    digit, and no character of it is a blank. *)
Lemma word_start_facts (c : ascii) :
  Py.isalpha c || Py.ceqb c "_" = true ->
  Py.ceqb "'" c = false /\ Py.ceqb c "-" = false /\ Py.isdigit c = false.
Proof.
  destruct c as [[] [] [] [] [] [] [] []]; vm_compute; intros H;
    try discriminate H; repeat split.
Qed.

Lemma word_not_space (c : ascii) : Py.isword c = true -> Py.isspace c = false.
Proof.
  destruct c as [[] [] [] [] [] [] [] []]; vm_compute; intros H;
    try discriminate H; reflexivity.
Qed.

Lemma int_regex_needs_digit (c : ascii) (x : str) :
  Py.ceqb c "-" = false -> Py.isdigit c = false ->
  re_match int_regex (c :: x) = None.
Proof.
  intros Hm Hd. unfold re_match, match_at, int_regex.
  cbn [seqs run Plus Opt chr digit length].
  rewrite Nat.eqb_refl, Hm, Hd. reflexivity.
Qed.

Lemma float_regex_needs_digit (c : ascii) (x : str) :
  Py.ceqb c "-" = false -> Py.isdigit c = false ->
  re_match float_regex (c :: x) = None.
Proof.
  intros Hm Hd. unfold re_match, match_at, float_regex.
  cbn [seqs run Plus Opt chr digit length].
  rewrite Nat.eqb_refl, Hm, Hd. reflexivity.
Qed.

Lemma coerce_bare_word (w : str) :
  bare_word w = true -> coerce_token w = Some (Text w).
Proof.
  destruct w as [|c x]; [discriminate|]. unfold bare_word.
  rewrite !andb_true_iff, negb_true_iff. intros [[Hc Hw] Hn].
  destruct (word_start_facts c Hc) as (Hq & Hm & Hd).
  unfold coerce_token, Py.strip.
  rewrite strip_by_keep.
  - cbn [Py.truthy negb]. rewrite Hn.
    change (Py.startswith (c :: x) "'") with (Py.ceqb "'" c && true).
    rewrite Hq. cbn [andb].
    rewrite int_regex_needs_digit, float_regex_needs_digit by assumption.
    reflexivity.
  - intros d Hin. apply word_not_space.
    rewrite forallb_forall in Hw. apply Hw, Hin.
Qed.

End CoercionTotal.

(** C6, as the claim states it, fails: the tuple [(1, ,2)] is tokenized
    into three tokens, and the blank one yields no value. *)
Lemma C6_counterexample :
  tokenize "(1, ,2)" = strs ["1"; " "; "2"]
  /\ coerce_token " " = None
  /\ _parse_values "(1, ,2)" = [Integer 1; Integer 2].
Proof. repeat split; vm_compute; reflexivity. Qed.

(** C6, amended: coercion never fails, and yields exactly one value for
    every token but a blank one, which it skips; [NULL] in any letter case
    yields [Null], [-42] yields [Integer (-42)], [3.14] yields the float
    3.14 (the binary64 number 7070651414971679 * 2^-51), and an unquoted
    bare word yields [Text] with that word verbatim. *)
Theorem C6_coercion_total :
  (forall raw : str,
      match coerce_token raw with
      | Some _ => Py.truthy (Py.strip raw) = true
      | None => Py.strip raw = []
      end)
  /\ (forall raw : str,
        Py.upper (Py.strip raw) = "NULL" -> coerce_token raw = Some Null)
  /\ coerce_token "-42" = Some (Integer (-42))
  /\ coerce_token "3.14" = Some (Float (S754_finite false 7070651414971679 (-51)))
  /\ (forall w : str, bare_word w = true -> coerce_token w = Some (Text w)).
Proof.
  split; [exact coerce_token_total|].
  split; [exact coerce_token_null|].
  split; [vm_compute; reflexivity|].
  split; [vm_compute; reflexivity|].
  exact coerce_bare_word.
Qed.

Lemma C6_coercion_total_witness :
  coerce_token "nUlL" = Some Null
  /\ coerce_token "CURRENT_TIMESTAMP" = Some (Text "CURRENT_TIMESTAMP").
Proof.
  destruct C6_coercion_total as (_ & Hnull & _ & _ & Hword).
  split.
  - apply (Hnull "nUlL"). vm_compute. reflexivity.
  - apply (Hword "CURRENT_TIMESTAMP"). vm_compute. reflexivity.
Defined.

(** The binary64 number given for 3.14 has a significand of 53 bits and is
    within half a unit in the last place of 314/100. *)
Lemma float_3_14_nearest :
  2 ^ 52 <= 7070651414971679 < 2 ^ 53
  /\ Z.abs (100 * 7070651414971679 - 314 * 2 ^ 51) * 2 <= 100.
Proof. vm_compute. repeat split; discriminate. Qed.

(** C8: [val_str.strip('()')] takes away every parenthesis at either end
    of the tuple text, not one layer: of [(1,NOW())] it leaves [1,NOW], and
    the last value loses the parentheses of its own. *)
Theorem C8_strip_takes_all_parentheses :
  Py.strip_chars "()" "(1,NOW())" = "1,NOW" :> str
  /\ tokenize "(1,NOW())" = strs ["1"; "NOW"]
  /\ _parse_values "(1,NOW())" = [Integer 1; Text "NOW"].
Proof. repeat split; vm_compute; reflexivity. Qed.

(** ** The matcher *)

Section ReFacts.

Context {R : Type}.
Variable whole : str.

Lemma reaches_here (k : str -> caps -> option R) (s : str) (g : caps) (x : R) :
  k s g = Some x -> reaches_suffix k s x.
Proof. intros H. exists s, g. split; [exact H | exists []; reflexivity]. Qed.

Lemma reaches_later (k : str -> caps -> option R) (w s : str) (x : R) :
  reaches_suffix k s x -> reaches_suffix k (w ++ s) x.
Proof.
  intros (s' & g' & H & w' & ->). exists s', g'.
  split; [exact H | exists (w ++ w'); now rewrite app_assoc].
Qed.

Lemma star_loop_suffix (greedy : bool)
      (body : str -> caps -> (str -> caps -> option R) -> option R)
      (k : str -> caps -> option R) (x : R) :
  (forall s g k', body s g k' = Some x -> reaches_suffix k' s x) ->
  forall n s g, star_loop greedy body k n s g = Some x -> reaches_suffix k s x.
Proof.
  intros Hbody. induction n as [|n IHn]; intros s g H; cbn [star_loop] in H.
  - eapply reaches_here, H.
  - assert (Hr : body s g (fun s' g' =>
                             if Nat.ltb (length s') (length s)
                             then star_loop greedy body k n s' g'
                             else None) = Some x ->
                 reaches_suffix k s x).
    { intros Hr. apply Hbody in Hr as (s1 & g1 & Hr & w1 & ->).
      destruct (Nat.ltb _ _); [|discriminate].
      apply reaches_later, (IHn _ _ Hr). }
    cbv zeta in H. destruct greedy.
    + match type of H with
      | match ?e with _ => _ end = _ => destruct e eqn:E
      end.
      * injection H as ->. apply Hr, E.
      * eapply reaches_here, H.
    + destruct (k s g) eqn:E.
      * injection H as ->. eapply reaches_here, E.
      * apply Hr, H.
Qed.

(** The bound on the iterations of a star cuts no match short: a body
    that depends on its continuation only through the continuation's
    results, and fails when the continuation does, gives the same result
    under any two bounds that are at least the length of the rest. *)
Lemma star_loop_enough (greedy : bool)
      (body : str -> caps -> (str -> caps -> option R) -> option R)
      (k : str -> caps -> option R) :
  (forall s g k1 k2, (forall s' g', k1 s' g' = k2 s' g') ->
                     body s g k1 = body s g k2) ->
  (forall s g, body s g (fun _ _ => None) = None) ->
  forall n m s g,
    (length s <= n)%nat -> (length s <= m)%nat ->
    star_loop greedy body k n s g = star_loop greedy body k m s g.
Proof.
  intros Hext Hfail.
  assert (Hend : forall m g, star_loop greedy body k m [] g = k [] g).
  { intros [|m] g; cbn [star_loop]; [reflexivity|]. cbv zeta.
    rewrite (Hext [] g _ (fun _ _ => None)), Hfail by reflexivity.
    destruct greedy; [reflexivity | destruct (k [] g); reflexivity]. }
  induction n as [|n IHn]; intros m s g Hn Hm.
  - destruct s; [|cbn in Hn; lia]. now rewrite Hend.
  - destruct m as [|m].
    + destruct s; [|cbn in Hm; lia]. now rewrite !Hend.
    + cbn [star_loop]. cbv zeta.
      rewrite (Hext s g _ (fun s' g' =>
                             if Nat.ltb (length s') (length s)
                             then star_loop greedy body k m s' g'
                             else None)); [reflexivity|].
      intros s' g'. destruct (Nat.ltb _ _) eqn:E; [|reflexivity].
      apply Nat.ltb_lt in E. apply IHn; lia.
Qed.

Lemma star_loop_ext (greedy : bool)
      (body : str -> caps -> (str -> caps -> option R) -> option R)
      (k1 k2 : str -> caps -> option R) :
  (forall s g k1 k2, (forall s' g', k1 s' g' = k2 s' g') ->
                     body s g k1 = body s g k2) ->
  (forall s g, k1 s g = k2 s g) ->
  forall n s g, star_loop greedy body k1 n s g = star_loop greedy body k2 n s g.
Proof.
  intros Hext Hk. induction n as [|n IHn]; intros s g; cbn [star_loop].
  - apply Hk.
  - cbv zeta. rewrite Hk.
    rewrite (Hext s g _ (fun s' g' =>
                           if Nat.ltb (length s') (length s)
                           then star_loop greedy body k2 n s' g'
                           else None)); [reflexivity|].
    intros s' g'. destruct (Nat.ltb _ _); [apply IHn | reflexivity].
Qed.

Lemma run_ext (r : regex) :
  forall (s : str) (g : caps) (k1 k2 : str -> caps -> option R),
    (forall s' g', k1 s' g' = k2 s' g') ->
    run whole r s g k1 = run whole r s g k2.
Proof.
  induction r as [|p|a IHa b IHb|a IHa b IHb|greedy a IHa|i a IHa|a IHa| |];
    intros s g k1 k2 Hk; cbn [run]; rewrite ?Hk; try reflexivity.
  - destruct s as [|c s]; [reflexivity|]. now rewrite Hk.
  - apply IHa. intros s' g'. apply IHb, Hk.
  - rewrite (IHa s g k1 k2 Hk), (IHb s g k1 k2 Hk). reflexivity.
  - apply star_loop_ext; [|exact Hk].
    intros s0 g0 k1' k2' Hk'. apply IHa, Hk'.
  - apply IHa. intros s' g'. apply Hk.
Qed.

Lemma run_fail (r : regex) :
  forall (s : str) (g : caps), run whole r s g (fun _ _ => @None R) = None.
Proof.
  induction r as [|p|a IHa b IHb|a IHa b IHb|greedy a IHa|i a IHa|a IHa| |];
    intros s g; cbn [run]; try reflexivity.
  - destruct s as [|c s]; [reflexivity|]. destruct (p c); reflexivity.
  - rewrite (run_ext a s g _ (fun _ _ => None)); [apply IHa|].
    intros s' g'. apply IHb.
  - now rewrite IHa, IHb.
  - generalize (length s) at 1. intros n. revert s g.
    induction n as [|n IHn]; intros s g; cbn [star_loop]; [reflexivity|].
    cbv zeta.
    rewrite (run_ext a s g _ (fun _ _ => None)), IHa.
    + destruct greedy; reflexivity.
    + intros s' g'. destruct (Nat.ltb _ _); [apply IHn | reflexivity].
  - apply IHa.
  - destruct (run whole a s g (fun _ _ => Some tt)); reflexivity.
  - destruct (Nat.eqb _ _); reflexivity.
  - destruct s as [|c [|d s]]; try reflexivity.
    destruct (Py.ceqb c _); reflexivity.
Qed.

(** So the star of [run] is the star under any bound that is large
    enough. *)
Lemma run_star_enough (greedy : bool) (a : regex) (s : str) (g : caps)
      (k : str -> caps -> option R) (n : nat) :
  (length s <= n)%nat ->
  run whole (Star greedy a) s g k
  = star_loop greedy (fun s' g' k' => run whole a s' g' k') k n s g.
Proof.
  intros Hn. cbn [run]. apply star_loop_enough; try lia.
  - intros s0 g0 k1 k2 Hk. apply run_ext, Hk.
  - intros s0 g0. apply run_fail.
Qed.

(** A successful run hands a suffix of its input to the continuation. *)
Lemma run_suffix (r : regex) :
  forall (s : str) (g : caps) (k : str -> caps -> option R) (x : R),
    run whole r s g k = Some x -> reaches_suffix k s x.
Proof.
  induction r as [|p|a IHa b IHb|a IHa b IHb|greedy a IHa|i a IHa|a IHa| |];
    intros s g k x H; cbn [run] in H.
  - eapply reaches_here, H.
  - destruct s as [|c s]; [discriminate|].
    destruct (p c); [|discriminate].
    apply (reaches_later k [c]). eapply reaches_here, H.
  - apply IHa in H as (s1 & g1 & H & w1 & ->).
    apply reaches_later. eapply IHb, H.
  - destruct (run whole a s g k) eqn:E.
    + injection H as ->. eapply IHa, E.
    + eapply IHb, H.
  - eapply star_loop_suffix; [|exact H].
    intros s0 g0 k' H0. eapply IHa, H0.
  - apply IHa in H as (s1 & g1 & H & Hw).
    eexists _, _. split; [exact H | exact Hw].
  - destruct (run whole a s g (fun _ _ => Some tt)); [discriminate|].
    eapply reaches_here, H.
  - destruct (Nat.eqb _ _); [|discriminate].
    eapply reaches_here, H.
  - destruct s as [|c [|d s]]; [eapply reaches_here, H| |discriminate].
    destruct (Py.ceqb c _); [eapply reaches_here, H | discriminate].
Qed.

End ReFacts.

Section Extractor.

Lemma lower_char_ceqb (c d : ascii) :
  Py.ceqb (Py.lower_char c) (Py.lower_char d) = true ->
  Py.lower_char c = Py.lower_char d.
Proof. apply ceqb_eq. Qed.

(** A literal under [re.IGNORECASE] consumes a text equal to it up to the
    case of its letters. *)
Lemma run_lit {R : Type} (whole : str) (t : str) :
  t <> [] ->
  forall (s : str) (g : caps) (k : str -> caps -> option R) (x : R),
    run whole (lit true t) s g k = Some x ->
    exists w s', s = w ++ s' /\ Py.lower w = Py.lower t /\ k s' g = Some x.
Proof.
  induction t as [|c t IH]; [congruence|]. intros _ s g k x H.
  assert (Hc : forall s g (k : str -> caps -> option R) x,
             run whole (chr true c) s g k = Some x ->
             exists d s', s = d :: s' /\ Py.lower_char d = Py.lower_char c
                          /\ k s' g = Some x).
  { clear. intros s g k x H. cbn [run chr] in H.
    destruct s as [|d s]; [discriminate|].
    destruct (Py.ceqb _ _) eqn:E; [|discriminate].
    exists d, s. repeat split; [apply lower_char_ceqb, E | exact H]. }
  destruct t as [|c' t].
  - apply Hc in H as (d & s' & -> & Hd & H).
    exists [d], s'. repeat split; [|exact H].
    cbn. now rewrite Hd.
  - change (lit true (c :: c' :: t))
      with (Seq (chr true c) (lit true (c' :: t))) in H.
    cbn [run] in H. apply Hc in H as (d & s1 & -> & Hd & H).
    apply IH in H as (w & s' & -> & Hw & H); [|discriminate].
    exists (d :: w), s'. repeat split; [|exact H].
    unfold Py.lower in *. cbn [map]. now rewrite Hd, Hw.
Qed.

(** The last item of a sequence is run on a suffix of the input. *)
Lemma run_seqs_last {R : Type} (whole : str) (rs : list regex) (r : regex) :
  forall (s : str) (g : caps) (k : str -> caps -> option R) (x : R),
    run whole (seqs (rs ++ [r])) s g k = Some x ->
    exists w s' g', s = w ++ s' /\ run whole r s' g' k = Some x.
Proof.
  induction rs as [|a rs IH]; intros s g k x H.
  - exists [], s, g. split; [reflexivity | exact H].
  - assert (E : seqs ((a :: rs) ++ [r]) = Seq a (seqs (rs ++ [r])))
      by (destruct rs; reflexivity).
    rewrite E in H. cbn [run] in H.
    apply run_suffix in H as (s1 & g1 & H & w1 & ->).
    apply IH in H as (w & s' & g' & -> & H).
    exists (w1 ++ w), s', g'. split; [now rewrite app_assoc | exact H].
Qed.

(** A match of [create_table_regex] spans a text that begins with
    [CREATE TABLE] and ends with [ENGINE=], in any letter case. *)
Lemma create_match_ends_with_engine (whole s : str) (m : Match) :
  match_at create_table_regex whole s = Some m ->
  exists kw mid mark post,
    s = kw ++ mid ++ mark ++ post
    /\ m_text m = kw ++ mid ++ mark
    /\ m_start m = (length whole - length s)%nat
    /\ Py.lower kw = Py.lower "CREATE TABLE"
    /\ Py.lower mark = Py.lower "ENGINE=".
Proof.
  unfold match_at. intros H.
  change create_table_regex
    with (Seq (lit true "CREATE TABLE")
              (seqs ([ Plus true space;
                       Opt (chr true "`"); Group 1 (Plus true word);
                       Opt (chr true "`"); Star true space;
                       chr true "("; Group 2 (Star false any); chr true ")";
                       Star true space ] ++ [lit true "ENGINE="]))) in H.
  cbn [run] in H.
  apply run_lit in H as (kw & s1 & -> & Hkw & H); [|discriminate].
  apply run_seqs_last in H as (mid & s2 & g2 & -> & H).
  apply run_lit in H as (mark & post & -> & Hmark & H); [|discriminate].
  injection H as <-. cbn [m_text m_start].
  exists kw, mid, mark, post. repeat split; try assumption.
  replace (kw ++ mid ++ mark ++ post) with ((kw ++ mid ++ mark) ++ post)
    by (now rewrite <- !app_assoc).
  rewrite length_app.
  replace (length (kw ++ mid ++ mark) + length post - length post)%nat
    with (length (kw ++ mid ++ mark)) by lia.
  apply take_app_length.
Qed.

(** Every match [finditer] yields is a match at some position of the
    text. *)
Lemma finditer_from_In (r : regex) (whole : str) (m : Match) :
  forall (s : str) (skip : nat),
    In m (finditer_from r whole skip s) ->
    exists pre s0, s = pre ++ s0 /\ match_at r whole s0 = Some m.
Proof.
  induction s as [|c s IH]; intros skip H.
  - destruct skip; cbn in H; [|contradiction].
    destruct (match_at r whole []) eqn:E; cbn in H; [|contradiction].
    destruct H as [<-|[]]. exists [], []. split; [reflexivity | exact E].
  - destruct skip as [|skip]; cbn [finditer_from] in H.
    + destruct (match_at r whole (c :: s)) as [m0|] eqn:E.
      * destruct H as [<-|H].
        -- exists [], (c :: s). split; [reflexivity | exact E].
        -- apply IH in H as (pre & s0 & -> & H).
           exists (c :: pre), s0. split; [reflexivity | exact H].
      * apply IH in H as (pre & s0 & -> & H).
        exists (c :: pre), s0. split; [reflexivity | exact H].
    + apply IH in H as (pre & s0 & -> & H).
      exists (c :: pre), s0. split; [reflexivity | exact H].
Qed.

Lemma create_matches_end_with_engine (content : str) (m : Match) :
  In m (finditer create_table_regex content) ->
  exists pre kw mid mark post,
    content = pre ++ kw ++ mid ++ mark ++ post
    /\ m_text m = kw ++ mid ++ mark
    /\ m_start m = length pre
    /\ Py.lower kw = Py.lower "CREATE TABLE"
    /\ Py.lower mark = Py.lower "ENGINE=".
Proof.
  intros H. apply finditer_from_In in H as (pre & s0 & E & H).
  apply create_match_ends_with_engine in H
    as (kw & mid & mark & post & -> & Ht & Hs & Hkw & Hmark).
  exists pre, kw, mid, mark, post. repeat split; try assumption.
  rewrite Hs, E, length_app. lia.
Qed.

End Extractor.

(** ** The registry *)

Section Registry.

Lemma dict_get_set_same (tables : Tables) (name : str) (t : Table) :
  dict_get (dict_set tables name t) name = Some t.
Proof.
  induction tables as [|[k t0] rest IH]; cbn.
  - now rewrite str_eqb_refl.
  - destruct (Py.str_eqb k name) eqn:E; cbn; rewrite E; [reflexivity | exact IH].
Qed.

Lemma dict_get_set_other (tables : Tables) (name name' : str) (t : Table) :
  name <> name' ->
  dict_get (dict_set tables name t) name' = dict_get tables name'.
Proof.
  intros Hne. induction tables as [|[k t0] rest IH]; cbn.
  - destruct (Py.str_eqb name name') eqn:E; [|reflexivity].
    apply str_eqb_eq in E. contradiction.
  - destruct (Py.str_eqb k name) eqn:E; cbn.
    + apply str_eqb_eq in E. subst k.
      destruct (Py.str_eqb name name') eqn:E'; [|reflexivity].
      apply str_eqb_eq in E'. contradiction.
    + now rewrite IH.
Qed.

Lemma dict_set_known (tables : Tables) (name : str) (t : Table) :
  dict_get tables name = Some t -> dict_set tables name t = tables.
Proof.
  induction tables as [|[k t0] rest IH]; cbn; [discriminate|].
  destruct (Py.str_eqb k name); intros H.
  - now injection H as ->.
  - now rewrite IH.
Qed.

Lemma dict_set_twice (tables : Tables) (name : str) (t1 t2 : Table) :
  dict_set (dict_set tables name t1) name t2 = dict_set tables name t2.
Proof.
  induction tables as [|[k t0] rest IH]; cbn.
  - now rewrite str_eqb_refl.
  - destruct (Py.str_eqb k name) eqn:E; cbn; rewrite E; [reflexivity | now rewrite IH].
Qed.

(** Setting a key that is known adds no key. *)
Lemma dict_set_keeps_keys (tables : Tables) (name name' : str) (t0 t : Table) :
  dict_get tables name = Some t0 ->
  is_Some (dict_get (dict_set tables name t) name') ->
  is_Some (dict_get tables name').
Proof.
  intros Hk H. destruct (decide (name = name')) as [<-|Hne].
  - rewrite Hk. eauto.
  - rewrite dict_get_set_other in H by exact Hne. exact H.
Qed.

Variable P : Table -> Prop.

Lemma dict_set_Forall (tables : Tables) (name : str) (t : Table) :
  Forall (fun kt => P kt.2) tables -> P t ->
  Forall (fun kt => P kt.2) (dict_set tables name t).
Proof.
  intros H Ht. induction H as [|[k t0] rest H0 H IH]; cbn.
  - repeat constructor. exact Ht.
  - destruct (Py.str_eqb k name); constructor; assumption.
Qed.

Lemma dict_get_Forall (tables : Tables) (name : str) (t : Table) :
  Forall (fun kt => P kt.2) tables -> dict_get tables name = Some t -> P t.
Proof.
  intros H. induction H as [|[k t0] rest H0 H IH]; cbn; [discriminate|].
  destruct (Py.str_eqb k name); intros E; [now injection E as <- | auto].
Qed.

End Registry.

(** ** [parse] *)

Section Parse.

Lemma table_eta (t : Table) : mkTable (t_columns t) (t_rows t) = t.
Proof. destruct t; reflexivity. Qed.

Lemma ordered_row_length (table_columns columns : list str) (parsed_row : list Value) :
  length (ordered_row table_columns columns parsed_row) = length table_columns.
Proof. unfold ordered_row. apply length_map. Qed.

(** The tuples of a statement with a column list: the rows appended are
    the re-projections of the tuples that hold a value. *)
Lemma insert_rows_explicit (table_name cs : str) (columns : list str) :
  Py.truthy cs = true ->
  forall (vals : list str) (tables : Tables) (t : Table),
    dict_get tables table_name = Some t ->
    fold_left (insert_row table_name (Some cs) columns) vals tables
    = dict_set tables table_name
        (mkTable (t_columns t)
           (t_rows t
              ++ map (ordered_row (t_columns t) columns)
                   (List.filter Py.truthy (map _parse_values vals)))).
Proof.
  intros Hcs. induction vals as [|v vals IH]; intros tables t Ht.
  - cbn. rewrite app_nil_r, table_eta. symmetry. apply dict_set_known, Ht.
  - cbn [fold_left map List.filter]. unfold insert_row at 2.
    rewrite Ht. unfold given. cbn [from_option]. rewrite Hcs.
    destruct (Py.truthy (_parse_values v)).
    + rewrite (IH _ _ (dict_get_set_same _ _ _)). cbn [t_columns t_rows map].
      rewrite dict_set_twice, <- app_assoc. reflexivity.
    + apply IH, Ht.
Qed.

(** The tuples of a statement without a column list: the rows appended
    are the tuples that hold a value, as they are. *)
Lemma insert_rows_positional (table_name : str) (columns_str : option str)
      (columns : list str) :
  given columns_str = false ->
  forall (vals : list str) (tables : Tables) (t : Table),
    dict_get tables table_name = Some t ->
    fold_left (insert_row table_name columns_str columns) vals tables
    = dict_set tables table_name
        (mkTable (t_columns t)
           (t_rows t ++ List.filter Py.truthy (map _parse_values vals))).
Proof.
  intros Hg. induction vals as [|v vals IH]; intros tables t Ht.
  - cbn. rewrite app_nil_r, table_eta. symmetry. apply dict_set_known, Ht.
  - cbn [fold_left map List.filter]. unfold insert_row at 2.
    rewrite Ht, Hg.
    destruct (Py.truthy (_parse_values v)).
    + rewrite (IH _ _ (dict_get_set_same _ _ _)). cbn [t_columns t_rows].
      rewrite dict_set_twice, <- app_assoc. reflexivity.
    + apply IH, Ht.
Qed.

(** What [insert_step] does for a known table. *)
Lemma insert_step_known (tables : Tables) (m : Match)
      (table_name values_str : str) (t : Table) :
  group m 1 = Some table_name -> group m 3 = Some values_str ->
  dict_get tables table_name = Some t ->
  insert_step tables m
  = match group m 2 with
    | Some (c :: cs) =>
        let columns := map (Py.strip_chars " `") (Py.split_char "," (c :: cs)) in
        if Nat.eqb (length columns) (length (t_columns t))
        then dict_set tables table_name
               (mkTable (t_columns t)
                  (t_rows t
                     ++ map (ordered_row (t_columns t) columns)
                          (List.filter Py.truthy
                             (map _parse_values (_split_values values_str)))))
        else tables
    | _ =>
        dict_set tables table_name
          (mkTable (t_columns t)
             (t_rows t ++ List.filter Py.truthy
                             (map _parse_values (_split_values values_str))))
    end.
Proof.
  intros H1 H3 Ht. unfold insert_step. rewrite H1, H3, Ht.
  destruct (group m 2) as [[|c cs]|]; cbn [given from_option Py.truthy andb].
  - apply insert_rows_positional; [reflexivity | exact Ht].
  - cbv zeta. destruct (Nat.eqb _ _); cbn [negb]; [|reflexivity].
    apply insert_rows_explicit; [reflexivity | exact Ht].
  - apply insert_rows_positional; [reflexivity | exact Ht].
Qed.

Lemma insert_step_unknown (tables : Tables) (m : Match) :
  (forall table_name, group m 1 = Some table_name ->
                      dict_get tables table_name = None) ->
  insert_step tables m = tables.
Proof.
  intros H. unfold insert_step.
  destruct (group m 1) as [n|]; [|reflexivity].
  destruct (group m 3); [|reflexivity].
  now rewrite (H n eq_refl).
Qed.

(** [insert_step] changes the table it names, if any, and adds no key. *)
Lemma insert_step_keeps_keys (tables : Tables) (m : Match) (name : str) :
  is_Some (dict_get (insert_step tables m) name) ->
  is_Some (dict_get tables name).
Proof.
  destruct (group m 1) as [n|] eqn:H1;
    [|unfold insert_step; rewrite H1; auto].
  destruct (group m 3) as [vs|] eqn:H3;
    [|unfold insert_step; rewrite H1, H3; auto].
  destruct (dict_get tables n) as [t|] eqn:Ht;
    [|unfold insert_step; rewrite H1, H3, Ht; auto].
  rewrite (insert_step_known _ _ _ _ _ H1 H3 Ht).
  destruct (group m 2) as [[|c cs]|]; cbv zeta;
    try destruct (Nat.eqb _ _); auto;
    apply (dict_set_keeps_keys _ _ _ _ _ Ht).
Qed.

Lemma inserts_keep_keys (ms : list Match) (name : str) :
  forall tables : Tables,
    is_Some (dict_get (fold_left insert_step ms tables) name) ->
    is_Some (dict_get tables name).
Proof.
  induction ms as [|m ms IH]; intros tables H; [exact H|].
  cbn in H. apply IH in H. eapply insert_step_keeps_keys, H.
Qed.

(** A key of the registry after the first loop is the first group of one
    of the matches. *)
Lemma creates_keys (ms : list Match) (name : str) :
  forall tables : Tables,
    is_Some (dict_get (fold_left create_step ms tables) name) ->
    is_Some (dict_get tables name)
    \/ exists m, In m ms /\ group m 1 = Some name.
Proof.
  induction ms as [|m ms IH]; intros tables H; [left; exact H|].
  cbn [fold_left] in H. apply IH in H as [H|(m' & Hin & Hg)].
  - unfold create_step in H.
    destruct (group m 1) as [n|] eqn:H1; [|left; exact H].
    destruct (group m 2) as [body|]; [|left; exact H].
    destruct (Py.truthy _); [|left; exact H].
    destruct (decide (n = name)) as [->|Hne].
    + right. exists m. split; [left; reflexivity | exact H1].
    + left. rewrite dict_get_set_other in H by exact Hne. exact H.
  - right. exists m'. split; [right; exact Hin | exact Hg].
Qed.

(** The first loop enters tables without rows and with a column. *)
Lemma creates_Forall (P : Table -> Prop) (ms : list Match) :
  (forall c cols, P (mkTable (c :: cols) [])) ->
  forall tables : Tables,
    Forall (fun kt => P kt.2) tables ->
    Forall (fun kt => P kt.2) (fold_left create_step ms tables).
Proof.
  intros HP. induction ms as [|m ms IH]; intros tables H; [exact H|].
  cbn [fold_left]. apply IH. unfold create_step.
  destruct (group m 1) as [n|]; [|exact H].
  destruct (group m 2) as [body|]; [|exact H].
  destruct (_extract_columns body) as [|c cols]; [exact H|].
  cbn [Py.truthy]. apply dict_set_Forall; [exact H | apply HP].
Qed.

End Parse.

Section ParseInvariants.

Variable P : Table -> Prop.

(** [insert_step] keeps a property of the tables that holds again when
    rows are appended, where the rows a statement with a column list
    appends are as long as the table's column list. *)
Lemma insert_step_Forall (tables : Tables) (m : Match) :
  (forall t new_rows,
      P t ->
      (explicit_columns m = true ->
       Forall (fun row => length row = length (t_columns t)) new_rows) ->
      P (mkTable (t_columns t) (t_rows t ++ new_rows))) ->
  Forall (fun kt => P kt.2) tables ->
  Forall (fun kt => P kt.2) (insert_step tables m).
Proof.
  intros HP H.
  destruct (group m 1) as [n|] eqn:H1;
    [|unfold insert_step; rewrite H1; exact H].
  destruct (group m 3) as [vs|] eqn:H3;
    [|unfold insert_step; rewrite H1, H3; exact H].
  destruct (dict_get tables n) as [t|] eqn:Ht;
    [|unfold insert_step; rewrite H1, H3, Ht; exact H].
  rewrite (insert_step_known _ _ _ _ _ H1 H3 Ht).
  pose proof (dict_get_Forall P _ _ _ H Ht) as HPt.
  unfold explicit_columns in HP.
  destruct (group m 2) as [[|c cs]|]; cbv zeta.
  - apply dict_set_Forall; [exact H|]. apply HP; [exact HPt | discriminate].
  - destruct (Nat.eqb _ _); [|exact H].
    apply dict_set_Forall; [exact H|]. apply HP; [exact HPt | intros _].
    apply List.Forall_forall. intros row Hrow.
    apply in_map_iff in Hrow as (parsed & <- & _).
    apply ordered_row_length.
  - apply dict_set_Forall; [exact H|]. apply HP; [exact HPt | discriminate].
Qed.

Lemma inserts_Forall (ms : list Match) :
  (forall m t new_rows,
      In m ms -> P t ->
      (explicit_columns m = true ->
       Forall (fun row => length row = length (t_columns t)) new_rows) ->
      P (mkTable (t_columns t) (t_rows t ++ new_rows))) ->
  forall tables : Tables,
    Forall (fun kt => P kt.2) tables ->
    Forall (fun kt => P kt.2) (fold_left insert_step ms tables).
Proof.
  induction ms as [|m ms IH]; intros HP tables H; [exact H|].
  cbn [fold_left]. apply IH.
  - intros m' t new Hin. apply HP. right. exact Hin.
  - apply insert_step_Forall; [|exact H].
    intros t new. apply HP. left. reflexivity.
Qed.

End ParseInvariants.

Section RowsStored.

(** The rows [insert_step] adds to the table [name]: none unless the
    statement names the table; with a column list they are as long as the
    table's column list, without one they are the parsed tuples. *)
Lemma insert_step_new_rows (tables : Tables) (m : Match) (name : str) (t : Table) :
  dict_get (insert_step tables m) name = Some t ->
  exists (t0 : Table) (new_rows : list (list Value)),
    dict_get tables name = Some t0
    /\ t = mkTable (t_columns t0) (t_rows t0 ++ new_rows)
    /\ forall row,
        In row new_rows ->
        group m 1 = Some name
        /\ (explicit_columns m = true -> length row = length (t_columns t0))
        /\ (explicit_columns m = false ->
            exists values_str val,
              group m 3 = Some values_str
              /\ In val (_split_values values_str)
              /\ row = _parse_values val).
Proof.
  intros H.
  assert (Hsame : dict_get tables name = Some t ->
                  exists t0 new_rows,
                    dict_get tables name = Some t0
                    /\ t = mkTable (t_columns t0) (t_rows t0 ++ new_rows)
                    /\ forall row,
                        In row new_rows ->
                        group m 1 = Some name
                        /\ (explicit_columns m = true ->
                            length row = length (t_columns t0))
                        /\ (explicit_columns m = false ->
                            exists values_str val,
                              group m 3 = Some values_str
                              /\ In val (_split_values values_str)
                              /\ row = _parse_values val)).
  { intros Ht. exists t, []. split; [exact Ht|]. split.
    - now rewrite app_nil_r, table_eta.
    - intros row []. }
  destruct (group m 1) as [n|] eqn:H1;
    [|unfold insert_step in H; rewrite H1 in H; auto].
  destruct (group m 3) as [vs|] eqn:H3;
    [|unfold insert_step in H; rewrite H1, H3 in H; auto].
  destruct (dict_get tables n) as [tn|] eqn:Hn;
    [|unfold insert_step in H; rewrite H1, H3, Hn in H; auto].
  rewrite (insert_step_known _ _ _ _ _ H1 H3 Hn) in H.
  assert (E : explicit_columns m = given (group m 2)) by reflexivity.
  destruct (group m 2) as [[|c cs]|] eqn:H2; cbv zeta in H;
    cbn [given from_option Py.truthy] in E.
  - destruct (decide (n = name)) as [->|Hne];
      [|rewrite dict_get_set_other in H by exact Hne; auto].
    rewrite dict_get_set_same in H. injection H as <-.
    exists tn, (List.filter Py.truthy (map _parse_values (_split_values vs))).
    split; [exact Hn|]. split; [reflexivity|]. intros row Hrow.
    split; [reflexivity|]. split; [congruence|]. intros _.
    apply List.filter_In in Hrow as [Hrow _].
    apply in_map_iff in Hrow as (val & <- & Hval). eauto.
  - destruct (Nat.eqb _ _); [|auto].
    destruct (decide (n = name)) as [->|Hne];
      [|rewrite dict_get_set_other in H by exact Hne; auto].
    rewrite dict_get_set_same in H. injection H as <-.
    eexists tn, _. split; [exact Hn|]. split; [reflexivity|]. intros row Hrow.
    split; [reflexivity|]. split; [|congruence]. intros _.
    apply in_map_iff in Hrow as (parsed & <- & _). apply ordered_row_length.
  - destruct (decide (n = name)) as [->|Hne];
      [|rewrite dict_get_set_other in H by exact Hne; auto].
    rewrite dict_get_set_same in H. injection H as <-.
    exists tn, (List.filter Py.truthy (map _parse_values (_split_values vs))).
    split; [exact Hn|]. split; [reflexivity|]. intros row Hrow.
    split; [reflexivity|]. split; [congruence|]. intros _.
    apply List.filter_In in Hrow as [Hrow _].
    apply in_map_iff in Hrow as (val & <- & Hval). eauto.
Qed.

(** Where the rows of a table come from after the loop over the insert
    statements. *)
Lemma inserts_new_rows (ms : list Match) :
  forall (tables : Tables) (name : str) (t : Table),
    dict_get (fold_left insert_step ms tables) name = Some t ->
    exists t0 : Table,
      dict_get tables name = Some t0
      /\ t_columns t = t_columns t0
      /\ forall row,
          In row (t_rows t) ->
          In row (t_rows t0)
          \/ length row = length (t_columns t0)
          \/ exists m values_str val,
              In m ms
              /\ group m 1 = Some name
              /\ explicit_columns m = false
              /\ group m 3 = Some values_str
              /\ In val (_split_values values_str)
              /\ row = _parse_values val.
Proof.
  induction ms as [|m ms IH]; intros tables name t H.
  - exists t. cbn in H. auto.
  - cbn [fold_left] in H. apply IH in H as (t1 & H1 & Hc & Hrows).
    apply insert_step_new_rows in H1 as (t0 & new & H0 & -> & Hnew).
    cbn [t_columns t_rows] in *.
    exists t0. split; [exact H0|]. split; [exact Hc|]. intros row Hrow.
    destruct (Hrows row Hrow) as [Hin|[Hlen|(m' & vs & val & Hm & Hrest)]].
    + apply in_app_or in Hin as [Hin|Hin]; [left; exact Hin|].
      destruct (Hnew row Hin) as (Hg & Hex & Hpos).
      destruct (explicit_columns m) eqn:E.
      * right. left. apply Hex. reflexivity.
      * destruct (Hpos eq_refl) as (vs & val & H3 & Hval & Hr).
        right. right. exists m, vs, val. cbn [In]. auto 10.
    + right. left. exact Hlen.
    + right. right. exists m', vs, val. cbn [In]. tauto.
Qed.

(** After the loop over the schema statements no table holds a row. *)
Lemma creates_no_rows (ms : list Match) (name : str) (t : Table) :
  dict_get (fold_left create_step ms []) name = Some t -> t_rows t = [].
Proof.
  apply (dict_get_Forall (fun t => t_rows t = [])).
  apply (creates_Forall (fun t => t_rows t = [])); [reflexivity | constructor].
Qed.

Lemma parse_rows (content name : str) (t : Table) (row : list Value) :
  dict_get (parse content) name = Some t ->
  In row (t_rows t) ->
  length row = length (t_columns t) \/ stored_positionally content name row.
Proof.
  unfold parse. intros H Hrow.
  apply inserts_new_rows in H as (t0 & H0 & Hc & Hrows).
  apply creates_no_rows in H0.
  destruct (Hrows row Hrow) as [Hin|[Hlen|Hpos]].
  - rewrite H0 in Hin. destruct Hin.
  - left. now rewrite Hc.
  - right. exact Hpos.
Qed.

End RowsStored.

(** C1, as the claim states it, fails: a statement without a column list
    stores its tuples as they are, here a row of one value in a table of
    two columns. *)
Lemma C1_counterexample :
  dict_get (parse "CREATE TABLE t (a int, b int) ENGINE=X; INSERT INTO t VALUES (1);") "t"
  = Some (mkTable (strs ["a"; "b"]) [[Integer 1]])
  /\ length [Integer 1] <> length (strs ["a"; "b"]).
Proof. split; [vm_compute; reflexivity | discriminate]. Qed.

(** C1, amended: for every input text, a row of the registry is as long
    as its table's column list unless it is a tuple of an insert statement
    for that table written without a column list; so a table whose insert
    statements all carry a column list holds rows of its column count
    only, whatever the other statements of the text are.  A statement
    without a column list stores its tuples that hold a value as they
    are, whatever their length: shorter than the column list, or longer,
    as the row of three values in a table of two columns. *)
Theorem C1_rows_have_table_arity :
  (forall (content name : str) (t : Table) (row : list Value),
      dict_get (parse content) name = Some t ->
      In row (t_rows t) ->
      length row = length (t_columns t) \/ stored_positionally content name row)
  /\ (forall (content name : str) (t : Table),
         dict_get (parse content) name = Some t ->
         (forall m, In m (finditer insert_into_regex content) ->
                    group m 1 = Some name -> explicit_columns m = true) ->
         Forall (fun row => length row = length (t_columns t)) (t_rows t))
  /\ (forall (tables : Tables) (m : Match) (name values_str : str) (t : Table),
         group m 1 = Some name -> group m 3 = Some values_str ->
         explicit_columns m = false ->
         dict_get tables name = Some t ->
         insert_step tables m
         = dict_set tables name
             (mkTable (t_columns t)
                (t_rows t ++ List.filter Py.truthy
                               (map _parse_values (_split_values values_str)))))
  /\ dict_get (parse "CREATE TABLE t (a int, b int) ENGINE=X; INSERT INTO t VALUES (1,2,3);") "t"
     = Some (mkTable (strs ["a"; "b"]) [[Integer 1; Integer 2; Integer 3]]).
Proof.
  split; [exact parse_rows|]. split; [|split].
  - intros content name t Ht Hex. apply List.Forall_forall. intros row Hrow.
    destruct (parse_rows content name t row Ht Hrow)
      as [Hlen|(m & vs & val & Hm & Hg & Hne & _)]; [exact Hlen|].
    rewrite (Hex m Hm Hg) in Hne. discriminate.
  - intros tables m name vs t H1 H3 Hex Ht.
    rewrite (insert_step_known _ _ _ _ _ H1 H3 Ht).
    unfold explicit_columns in Hex.
    destruct (group m 2) as [[|c cs]|]; [reflexivity | discriminate | reflexivity].
  - vm_compute. reflexivity.
Qed.

Lemma C1_rows_have_table_arity_witness :
  Forall (fun row => length row = 3%nat) [[Integer 7; Text "Bob"; Null]].
Proof.
  apply (proj1 (proj2 C1_rows_have_table_arity)
           "CREATE TABLE t (id int, name text, age int) ENGINE=X; INSERT INTO u VALUES (1); INSERT INTO t (name, id, nick) VALUES ('Bob',7,'x');"
           "t"
           (mkTable (strs ["id"; "name"; "age"]) [[Integer 7; Text "Bob"; Null]])).
  - vm_compute. reflexivity.
  - intros m Hin Hg. vm_compute in Hin.
    destruct Hin as [<-|[<-|[]]]; [vm_compute in Hg; discriminate Hg|].
    vm_compute. reflexivity.
Defined.

(** C2, as the claim states it, fails: the schema statement for [t] is
    matched, its body holds no column, and [t] is not in the registry. *)
Lemma C2_counterexample :
  map (fun m => (group m 1, group m 2))
      (finditer create_table_regex "CREATE TABLE t () ENGINE=X;")
  = [(Some ("t" : str), Some ("" : str))]
  /\ _extract_columns "" = []
  /\ dict_get (parse "CREATE TABLE t () ENGINE=X;") "t" = None.
Proof. repeat split; vm_compute; reflexivity. Qed.

(** C2, amended: a schema statement whose captured body yields no column
    adds nothing to the registry, which stays as it was (only the warning
    of the verbose mode is emitted); and no table of the registry has an
    empty column list. *)
Theorem C2_columnless_table_not_registered :
  (forall (tables : Tables) (m : Match) (columns_def : str),
      group m 2 = Some columns_def ->
      _extract_columns columns_def = [] ->
      create_step tables m = tables)
  /\ (forall (content name : str) (t : Table),
         dict_get (parse content) name = Some t -> t_columns t <> []).
Proof.
  split.
  - intros tables m body H2 Hc. unfold create_step.
    destruct (group m 1); [|reflexivity]. rewrite H2, Hc. reflexivity.
  - intros content name t Ht.
    refine (dict_get_Forall (fun t => t_columns t <> []) _ _ _ _ Ht).
    unfold parse. apply (inserts_Forall (fun t => t_columns t <> [])).
    + intros m t0 new _ H0 _. exact H0.
    + apply (creates_Forall (fun t => t_columns t <> [])); [|constructor].
      intros c cols. discriminate.
Qed.

Lemma C2_columnless_table_not_registered_witness :
  create_step [] (first_match create_table_regex "CREATE TABLE t () ENGINE=X;") = []
  /\ strs ["a"] <> [].
Proof.
  destruct C2_columnless_table_not_registered as [Hskip Hcols].
  split.
  - apply (Hskip [] _ ""); vm_compute; reflexivity.
  - apply (Hcols "CREATE TABLE t (a int) ENGINE=X;" "t" (mkTable (strs ["a"]) [])).
    vm_compute. reflexivity.
Defined.

(** C3: an insert statement whose column list has a length other than the
    column count of the table it names appends no row: the registry, and
    with it the table's rows, is left as it was, and the loop goes on with
    the next statement. *)
Theorem C3_arity_rejection :
  forall (tables : Tables) (m : Match) (table_name columns_str : str) (t : Table),
    group m 1 = Some table_name ->
    group m 2 = Some columns_str ->
    columns_str <> [] ->
    dict_get tables table_name = Some t ->
    length (map (Py.strip_chars " `") (Py.split_char "," columns_str))
      <> length (t_columns t) ->
    insert_step tables m = tables
    /\ forall ms : list Match,
        fold_left insert_step (m :: ms) tables = fold_left insert_step ms tables.
Proof.
  intros tables m n cs t H1 H2 Hcs Ht Hlen.
  assert (E : insert_step tables m = tables).
  { destruct (group m 3) as [vs|] eqn:H3;
      [|unfold insert_step; rewrite H1, H3; reflexivity].
    rewrite (insert_step_known _ _ _ _ _ H1 H3 Ht), H2.
    destruct cs as [|c cs]; [congruence|]. cbv zeta.
    destruct (Nat.eqb _ _) eqn:E; [|reflexivity].
    apply Nat.eqb_eq in E. contradiction. }
  split; [exact E|]. intros ms. cbn [fold_left]. now rewrite E.
Qed.

Lemma C3_arity_rejection_witness :
  insert_step people (first_match insert_into_regex "INSERT INTO t (name, id) VALUES ('Bob', 7);")
  = people.
Proof.
  apply (C3_arity_rejection people _ "t" "name, id"
           (mkTable (strs ["id"; "name"; "age"]) [[Integer 1; Text "Al"; Integer 30]]));
    vm_compute; try reflexivity; discriminate.
Defined.

Section EngineMarker.

Lemma startswith_app (p x : str) : Py.startswith (p ++ x) p = true.
Proof.
  induction p as [|c p IH]; [reflexivity|].
  cbn. now rewrite ceqb_refl, IH.
Qed.

Lemma occurs_ci_intro (mark m' post : str) :
  Py.lower m' = Py.lower mark ->
  forall pre : str, occurs_ci mark (pre ++ m' ++ post) = true.
Proof.
  intros Hm. induction pre as [|c pre IH].
  - cbn [app]. assert (E : Py.lower (m' ++ post) = Py.lower mark ++ Py.lower post)
      by (unfold Py.lower in *; now rewrite map_app, Hm).
    destruct (m' ++ post); cbn [occurs_ci]; rewrite E, startswith_app; reflexivity.
  - cbn [app occurs_ci]. rewrite IH. apply orb_true_r.
Qed.

Lemma startswith_lower_elim (mark : str) :
  forall s : str,
    Py.startswith (Py.lower s) (Py.lower mark) = true ->
    exists m' post, s = m' ++ post /\ Py.lower m' = Py.lower mark.
Proof.
  induction mark as [|c mark IH]; intros s H.
  - exists [], s. split; reflexivity.
  - destruct s as [|d s]; [discriminate H|].
    change (Py.lower (d :: s)) with (Py.lower_char d :: Py.lower s) in H.
    change (Py.lower (c :: mark)) with (Py.lower_char c :: Py.lower mark) in *.
    rewrite startswith_cons in H. apply andb_true_iff in H as [Hc H].
    apply ceqb_eq in Hc. apply IH in H as (m' & post & -> & Hm).
    exists (d :: m'), post. split; [reflexivity|].
    change (Py.lower (d :: m')) with (Py.lower_char d :: Py.lower m').
    now rewrite Hm, Hc.
Qed.

(** [occurs_ci] holds exactly of the texts that hold the mark. *)
Lemma occurs_ci_elim (mark : str) :
  forall s : str,
    occurs_ci mark s = true ->
    exists pre m' post, s = pre ++ m' ++ post /\ Py.lower m' = Py.lower mark.
Proof.
  induction s as [|c s IH]; intros H; cbn [occurs_ci] in H;
    apply orb_true_iff in H as [H|H].
  - apply startswith_lower_elim in H as (m' & post & E & Hm).
    exists [], m', post. split; [exact E | exact Hm].
  - discriminate H.
  - apply startswith_lower_elim in H as (m' & post & E & Hm).
    exists [], m', post. split; [exact E | exact Hm].
  - apply IH in H as (pre & m' & post & -> & Hm).
    exists (c :: pre), m', post. split; [reflexivity | exact Hm].
Qed.

Lemma inserts_nil (ms : list Match) : fold_left insert_step ms [] = [].
Proof.
  induction ms as [|m ms IH]; [reflexivity|].
  cbn [fold_left]. rewrite insert_step_unknown; [exact IH | reflexivity].
Qed.

End EngineMarker.

(** C10: a table is in the registry only through a match of
    [create_table_regex], and every such match spans a text that begins
    with [CREATE TABLE] and ends with the marker [ENGINE=] (in any letter
    case): a schema statement that no [ENGINE=] follows is not matched.  In
    particular a text in which [ENGINE=] does not occur has no match and
    the registry stays empty. *)
Theorem C10_schema_needs_engine_marker :
  (forall (content name : str) (t : Table),
      dict_get (parse content) name = Some t ->
      exists (m : Match) (pre kw mid mark post : str),
        In m (finditer create_table_regex content)
        /\ group m 1 = Some name
        /\ content = pre ++ kw ++ mid ++ mark ++ post
        /\ m_text m = kw ++ mid ++ mark
        /\ m_start m = length pre
        /\ Py.lower kw = Py.lower "CREATE TABLE"
        /\ Py.lower mark = Py.lower "ENGINE=")
  /\ (forall content : str,
         occurs_ci "ENGINE=" content = false ->
         finditer create_table_regex content = [] /\ parse content = []).
Proof.
  split.
  - intros content name t Ht.
    assert (H : is_Some (dict_get (parse content) name)) by (rewrite Ht; eauto).
    unfold parse in H. apply inserts_keep_keys, creates_keys in H.
    destruct H as [[t0 H]|(m & Hin & Hg)]; [discriminate H|].
    destruct (create_matches_end_with_engine content m Hin)
      as (pre & kw & mid & mark & post & E & Ht' & Hs & Hkw & Hmark).
    exists m, pre, kw, mid, mark, post. repeat split; assumption.
  - intros content Hno.
    assert (E : finditer create_table_regex content = []).
    { destruct (finditer create_table_regex content) as [|m ms] eqn:E;
        [reflexivity|].
      destruct (create_matches_end_with_engine content m)
        as (pre & kw & mid & mark & post & Hc & _ & _ & _ & Hmark);
        [rewrite E; left; reflexivity|].
      rewrite Hc in Hno.
      replace (pre ++ kw ++ mid ++ mark ++ post)
        with ((pre ++ kw ++ mid) ++ mark ++ post) in Hno
        by (now rewrite <- !app_assoc).
      rewrite occurs_ci_intro in Hno by exact Hmark. discriminate. }
    split; [exact E|]. unfold parse. rewrite E. apply inserts_nil.
Qed.

Lemma C10_schema_needs_engine_marker_witness :
  (exists (m : Match) (pre kw mid mark post : str),
      In m (finditer create_table_regex "create table t (a int) engine=X;")
      /\ group m 1 = Some ("t" : str)
      /\ "create table t (a int) engine=X;" = pre ++ kw ++ mid ++ mark ++ post :> str
      /\ m_text m = kw ++ mid ++ mark
      /\ m_start m = length pre
      /\ Py.lower kw = Py.lower "CREATE TABLE"
      /\ Py.lower mark = Py.lower "ENGINE=")
  /\ finditer create_table_regex "CREATE TABLE t (a int); INSERT INTO t VALUES (1);" = []
  /\ parse "CREATE TABLE t (a int); INSERT INTO t VALUES (1);" = [].
Proof.
  destruct C10_schema_needs_engine_marker as [Hreg Hnone].
  split.
  - apply (Hreg "create table t (a int) engine=X;" "t" (mkTable (strs ["a"]) [])).
    vm_compute. reflexivity.
  - apply (Hnone "CREATE TABLE t (a int); INSERT INTO t VALUES (1);").
    vm_compute. reflexivity.
Defined.

(** ** The re-projection of a tuple *)

Section Reprojection.

Lemma row_dict_unfold (columns : list str) (parsed_row : list Value) :
  row_dict columns parsed_row = fold_left dict_put (zip columns parsed_row) ∅.
Proof. reflexivity. Qed.

Lemma puts_absent (col : str) (l : list (str * Value)) :
  (forall i v, l !! i <> Some (col, v)) ->
  forall d : gmap str Value, fold_left dict_put l d !! col = d !! col.
Proof.
  induction l as [|[k v0] l IH]; intros Hno d; [reflexivity|].
  cbn [fold_left]. rewrite IH.
  - unfold dict_put. cbn. apply lookup_insert_ne.
    intros ->. exact (Hno 0%nat v0 eq_refl).
  - intros i v. exact (Hno (S i) v).
Qed.

(** The dictionary holds, for a name, the value paired with its last
    occurrence. *)
Lemma puts_last (col : str) (v : Value) (l : list (str * Value)) :
  forall (i : nat) (d : gmap str Value),
    l !! i = Some (col, v) ->
    (forall i' v', (i < i')%nat -> l !! i' <> Some (col, v')) ->
    fold_left dict_put l d !! col = Some v.
Proof.
  induction l as [|[k v0] l IH]; intros i d Hi Hlast; [discriminate|].
  cbn [fold_left]. destruct i as [|i].
  - injection Hi as -> ->. rewrite puts_absent.
    + unfold dict_put. cbn. apply lookup_insert_eq.
    + intros i v'. apply (Hlast (S i)). lia.
  - apply (IH i); [exact Hi|].
    intros i' v' Hlt. apply (Hlast (S i')). lia.
Qed.

Lemma lookup_map {A B : Type} (f : A -> B) (l : list A) (j : nat) :
  map f l !! j = option_map f (l !! j).
Proof.
  revert j. induction l as [|a l IH]; intros [|j]; cbn; auto.
Qed.

Variables (table_columns columns : list str) (parsed_row : list Value).

Lemma ordered_row_absent (j : nat) (col : str) :
  table_columns !! j = Some col ->
  (forall i, (i < length parsed_row)%nat -> columns !! i <> Some col) ->
  ordered_row table_columns columns parsed_row !! j = Some Null.
Proof.
  intros Hj Hno. unfold ordered_row. rewrite lookup_map, Hj. cbn.
  rewrite row_dict_unfold, puts_absent; [reflexivity|].
  intros i v Hi. apply lookup_zip_with_Some in Hi as (c & v' & E & Hc & Hv).
  injection E as <- <-. apply (Hno i); [|exact Hc].
  apply lookup_lt_Some in Hv. exact Hv.
Qed.

Lemma ordered_row_present (j i : nat) (col : str) (v : Value) :
  table_columns !! j = Some col ->
  columns !! i = Some col ->
  parsed_row !! i = Some v ->
  (forall i', (i < i')%nat -> (i' < length parsed_row)%nat ->
              columns !! i' <> Some col) ->
  ordered_row table_columns columns parsed_row !! j = Some v.
Proof.
  intros Hj Hc Hv Hlast. unfold ordered_row. rewrite lookup_map, Hj. cbn.
  rewrite row_dict_unfold, (puts_last col v _ i); [reflexivity| |].
  - apply lookup_zip_with_Some. exists col, v. auto.
  - intros i' v' Hlt Hi'.
    apply lookup_zip_with_Some in Hi' as (c & v'' & E & Hc' & Hv').
    injection E as <- <-. apply (Hlast i' Hlt); [|exact Hc'].
    apply lookup_lt_Some in Hv'. exact Hv'.
Qed.

End Reprojection.

(** C4, as the claim states it, fails on its example: a column list of two
    names for a table of three columns is rejected, and no row is stored. *)
Lemma C4_counterexample :
  dict_get (parse "CREATE TABLE t (id int, name text, age int) ENGINE=X; INSERT INTO t (name, id) VALUES ('Bob', 7);") "t"
  = Some (mkTable (strs ["id"; "name"; "age"]) [])
  /\ ~ In [Integer 7; Text "Bob"; Null] (@nil (list Value)).
Proof. split; [vm_compute; reflexivity | intros []]. Qed.

(** C4, amended: an insert statement whose column list is as long as the
    column list of its table appends, for each tuple that holds a value,
    the tuple re-projected into the table's column order: the row has one
    cell per table column; the cell of a column named in the list at a
    position that has a value in the tuple holds that value (the last such
    position, should the name be repeated), and the cell of any other
    column holds [Null].  With the table columns [id, name, age], the
    column list [name, id, nick] and the tuple [('Bob',7,'x')] the row is
    [7, 'Bob', Null]. *)
Theorem C4_reprojection :
  forall (tables : Tables) (m : Match) (table_name columns_str values_str : str)
         (t : Table),
    group m 1 = Some table_name ->
    group m 2 = Some columns_str ->
    columns_str <> [] ->
    group m 3 = Some values_str ->
    dict_get tables table_name = Some t ->
    let columns := map (Py.strip_chars " `") (Py.split_char "," columns_str) in
    length columns = length (t_columns t) ->
    insert_step tables m
    = dict_set tables table_name
        (mkTable (t_columns t)
           (t_rows t
              ++ map (ordered_row (t_columns t) columns)
                   (List.filter Py.truthy
                      (map _parse_values (_split_values values_str)))))
    /\ forall parsed_row : list Value,
        let row := ordered_row (t_columns t) columns parsed_row in
        length row = length (t_columns t)
        /\ forall (j : nat) (col : str),
            t_columns t !! j = Some col ->
            ((forall i, (i < length parsed_row)%nat -> columns !! i <> Some col) ->
             row !! j = Some Null)
            /\ (forall (i : nat) (v : Value),
                   columns !! i = Some col ->
                   parsed_row !! i = Some v ->
                   (forall i', (i < i')%nat -> (i' < length parsed_row)%nat ->
                               columns !! i' <> Some col) ->
                   row !! j = Some v).
Proof.
  intros tables m n cs vs t H1 H2 Hcs H3 Ht columns Hlen. split.
  - rewrite (insert_step_known _ _ _ _ _ H1 H3 Ht), H2.
    destruct cs as [|c cs]; [congruence|]. cbv zeta.
    fold columns. rewrite Hlen, Nat.eqb_refl. reflexivity.
  - intros parsed_row row. split; [apply ordered_row_length|].
    intros j col Hj. split.
    + apply ordered_row_absent, Hj.
    + intros i v. apply ordered_row_present, Hj.
Qed.

Lemma C4_reprojection_witness :
  insert_step people (first_match insert_into_regex "INSERT INTO t (name, id, nick) VALUES ('Bob',7,'x');")
  = [("t" : str,
      mkTable (strs ["id"; "name"; "age"])
              [[Integer 1; Text "Al"; Integer 30]; [Integer 7; Text "Bob"; Null]])].
Proof.
  refine (eq_trans
            (proj1 (C4_reprojection people
                      (first_match insert_into_regex "INSERT INTO t (name, id, nick) VALUES ('Bob',7,'x');")
                      "t" "name, id, nick" "('Bob',7,'x')"
                      (mkTable (strs ["id"; "name"; "age"]) [[Integer 1; Text "Al"; Integer 30]])
                      _ _ _ _ _ _)) _);
    vm_compute; try reflexivity; discriminate.
Defined.

(** ** The scenarios of the specification *)

(** Depth-aware splitting of a column body. *)
Example extract_columns_enum :
  _extract_columns "`id` INT, `kind` ENUM('a,b','c,d'), PRIMARY KEY (`id`)"
  = strs ["id"; "kind"].
Proof. vm_compute. reflexivity. Qed.

(** One schema statement and two insert statements. *)
Example parse_users :
  parse "CREATE TABLE users (id int, name text) ENGINE=InnoDB; INSERT INTO users VALUES (1,'Alice'); INSERT INTO users VALUES (2,'Bob');"
  = [("users" : str,
      mkTable (strs ["id"; "name"])
              [[Integer 1; Text "Alice"]; [Integer 2; Text "Bob"]])].
Proof. vm_compute. reflexivity. Qed.

(** The statements the two patterns find, with their groups. *)
Example finditer_create :
  map (fun m => (group m 1, group m 2))
      (finditer create_table_regex
         "x CREATE TABLE `t` (a int, b int) ENGINE=I; create table u (c int) engine=x")
  = [(Some ("t" : str), Some ("a int, b int" : str));
     (Some ("u" : str), Some ("c int" : str))].
Proof. vm_compute. reflexivity. Qed.

Example finditer_insert :
  map (fun m => (group m 1, group m 2, group m 3))
      (finditer insert_into_regex
         "INSERT INTO `t` (a, b) VALUES (1,2),(3,4); insert into u values (1);")
  = [(Some ("t" : str), Some ("a, b" : str), Some ("(1,2),(3,4)" : str));
     (Some ("u" : str), None, Some ("(1)" : str))].
Proof. vm_compute. reflexivity. Qed.

(** The values of a tuple. *)
Example parse_values_mixed :
  _parse_values "(1,NULL,'O\'Brien',-42,3.14,abc)"
  = [Integer 1; Null; Text "O'Brien"; Integer (-42);
     Float (S754_finite false 7070651414971679 (-51)); Text "abc"].
Proof. vm_compute. reflexivity. Qed.

(** * More of the parser *)

(** ** What the patterns capture *)

Section Consumes.

Context {R : Type}.
Variable whole : str.

(** What [run_consumes] says of one continuation. *)
Lemma star_loop_consumes (greedy : bool) (a : regex)
      (body : str -> caps -> (str -> caps -> option R) -> option R)
      (k : str -> caps -> option R) (x : R) :
  (forall s g k', body s g k' = Some x ->
                  exists w s' g', s = w ++ s' /\ consumes a w g g'
                                  /\ k' s' g' = Some x) ->
  forall n s g,
    star_loop greedy body k n s g = Some x ->
    exists w s' g', s = w ++ s' /\ consumes (Star greedy a) w g g'
                    /\ k s' g' = Some x.
Proof.
  intros Hbody. induction n as [|n IHn]; intros s g H; cbn [star_loop] in H.
  - exists [], s, g. repeat split; [constructor | exact H].
  - assert (Hk : k s g = Some x ->
                 exists w s' g', s = w ++ s' /\ consumes (Star greedy a) w g g'
                                 /\ k s' g' = Some x)
      by (intros Hk; exists [], s, g; repeat split; [constructor | exact Hk]).
    assert (Hr : body s g (fun s' g' =>
                             if Nat.ltb (length s') (length s)
                             then star_loop greedy body k n s' g'
                             else None) = Some x ->
                 exists w s' g', s = w ++ s' /\ consumes (Star greedy a) w g g'
                                 /\ k s' g' = Some x).
    { intros Hr. apply Hbody in Hr as (w1 & s1 & g1 & -> & Ha & Hr).
      destruct (Nat.ltb _ _); [|discriminate].
      apply IHn in Hr as (w2 & s2 & g2 & -> & Hs & Hr).
      exists (w1 ++ w2), s2, g2. repeat split.
      - now rewrite app_assoc.
      - econstructor; eassumption.
      - exact Hr. }
    cbv zeta in H. destruct greedy.
    + match type of H with
      | match ?e with _ => _ end = _ => destruct e eqn:E
      end.
      * injection H as ->. apply Hr, E.
      * apply Hk, H.
    + destruct (k s g) eqn:E.
      * injection H as ->. apply Hk. reflexivity.
      * apply Hr, H.
Qed.

(** A successful run consumes a text the pattern can consume, and hands
    the rest and the groups captured to the continuation. *)
Lemma run_consumes (r : regex) :
  forall (s : str) (g : caps) (k : str -> caps -> option R) (x : R),
    run whole r s g k = Some x ->
    exists w s' g', s = w ++ s' /\ consumes r w g g' /\ k s' g' = Some x.
Proof.
  induction r as [|p|a IHa b IHb|a IHa b IHb|greedy a IHa|i a IHa|a IHa| |];
    intros s g k x H; cbn [run] in H.
  - exists [], s, g. repeat split; [constructor | exact H].
  - destruct s as [|c s]; [discriminate|].
    destruct (p c) eqn:Hp; [|discriminate].
    exists [c], s, g. repeat split; [constructor; exact Hp | exact H].
  - apply IHa in H as (w1 & s1 & g1 & -> & Ha & H).
    apply IHb in H as (w2 & s2 & g2 & -> & Hb & H).
    exists (w1 ++ w2), s2, g2. repeat split.
    + now rewrite app_assoc.
    + econstructor; eassumption.
    + exact H.
  - destruct (run whole a s g k) eqn:E.
    + injection H as ->. apply IHa in E as (w & s' & g' & -> & Ha & E).
      exists w, s', g'. repeat split; [now apply consumes_alt_l | exact E].
    + apply IHb in H as (w & s' & g' & -> & Hb & H).
      exists w, s', g'. repeat split; [now apply consumes_alt_r | exact H].
  - eapply star_loop_consumes; [|exact H].
    intros s0 g0 k' H0. apply IHa, H0.
  - apply IHa in H as (w & s' & g' & -> & Ha & H).
    exists w, s', ((i, w) :: g'). repeat split; [now constructor|].
    rewrite length_app in H.
    replace (length w + length s' - length s')%nat with (length w) in H by lia.
    now rewrite take_app_length in H.
  - destruct (run whole a s g (fun _ _ => Some tt)); [discriminate|].
    exists [], s, g. repeat split; [constructor | exact H].
  - destruct (Nat.eqb _ _); [|discriminate].
    exists [], s, g. repeat split; [constructor | exact H].
  - assert (Hk : k s g = Some x ->
                 exists w s' g', s = w ++ s' /\ consumes Eol w g g'
                                 /\ k s' g' = Some x)
      by (intros Hk; exists [], s, g; repeat split; [constructor | exact Hk]).
    destruct s as [|c [|d s]]; [auto| |discriminate].
    destruct (Py.ceqb c _); [auto | discriminate].
Qed.

End Consumes.

Section ConsumesFacts.

Lemma consumes_nullable (r : regex) (w : str) (g g' : caps) :
  consumes r w g g' -> nullable r = false -> w <> [].
Proof.
  induction 1 as [g|p c g Hp|a b w1 w2 g g1 g2 Ha IHa Hb IHb
                  |a b w g g' Ha IHa|a b w g g' Hb IHb
                  |gr a g|gr a w1 w2 g g1 g2 Ha IHa Hs IHs
                  |i a w g g' Ha IHa|a g|g|g];
    cbn [nullable]; intros Hn; try discriminate Hn.
  - discriminate.
  - apply andb_false_iff in Hn as [Hn|Hn].
    + specialize (IHa Hn). destruct w1; [congruence | discriminate].
    + specialize (IHb Hn). destruct w1, w2; cbn; congruence.
  - apply orb_false_iff in Hn as [Hn _]. auto.
  - apply orb_false_iff in Hn as [_ Hn]. auto.
  - auto.
Qed.

(** The groups a pattern captures satisfy what each group of the pattern
    guarantees. *)
Lemma consumes_groups (Q : nat -> str -> Prop) (r : regex) (w : str) (g g' : caps) :
  consumes r w g g' ->
  groups_hold Q r ->
  Forall (fun it => Q it.1 it.2) g ->
  Forall (fun it => Q it.1 it.2) g'.
Proof.
  induction 1 as [g|p c g Hp|a b w1 w2 g g1 g2 Ha IHa Hb IHb
                  |a b w g g' Ha IHa|a b w g g' Hb IHb
                  |gr a g|gr a w1 w2 g g1 g2 Ha IHa Hs IHs
                  |i a w g g' Ha IHa|a g|g|g];
    cbn [groups_hold]; intros HQ Hg; auto.
  - destruct HQ as [HQa HQb]. auto.
  - destruct HQ as [HQa HQb]. auto.
  - destruct HQ as [HQa HQb]. auto.
  - destruct HQ as [HQi HQa]. constructor; [|auto].
    cbn. eapply HQi, Ha.
Qed.

(** A star of one-character items consumes characters of the class and
    captures nothing. *)
Lemma consumes_star_chr (gr : bool) (p : ascii -> bool) (w : str) (g g' : caps) :
  consumes (Star gr (Chr p)) w g g' -> forallb p w = true /\ g' = g.
Proof.
  remember (Star gr (Chr p)) as r eqn:E. intros H. revert E.
  induction H as [g|p0 c g Hp|a b w1 w2 g g1 g2 Ha IHa Hb IHb
                  |a b w g g' Ha IHa|a b w g g' Hb IHb
                  |gr0 a g|gr0 a w1 w2 g g1 g2 Ha IHa Hs IHs
                  |i a w g g' Ha IHa|a g|g|g];
    intros E; try discriminate E.
  - split; reflexivity.
  - injection E as -> ->. inversion Ha; subst.
    destruct (IHs eq_refl) as [Hw ->]. split; [|reflexivity].
    cbn [app forallb]. rewrite Hw.
    match goal with Hpc : p _ = true |- _ => now rewrite Hpc end.
Qed.

Lemma consumes_plus_chr (gr : bool) (p : ascii -> bool) (w : str) (g g' : caps) :
  consumes (Plus gr (Chr p)) w g g' ->
  w <> [] /\ forallb p w = true /\ g' = g.
Proof.
  unfold Plus. intros H. inversion H; subst.
  match goal with
  | Hc : consumes (Chr p) _ _ _, Hs : consumes (Star _ _) _ _ _ |- _ =>
      inversion Hc; subst; apply consumes_star_chr in Hs as [Hw ->]
  end.
  split; [discriminate|]. split; [|reflexivity].
  cbn. rewrite Hw. match goal with Hpc : p _ = true |- _ => now rewrite Hpc end.
Qed.

Lemma lookup_cap_In (g : caps) (i : nat) (t : str) :
  lookup_cap g i = Some t -> In (i, t) g.
Proof.
  induction g as [|[j u] g IH]; cbn; [discriminate|].
  destruct (Nat.eqb i j) eqn:E.
  - apply Nat.eqb_eq in E. intros [= ->]. left. now subst.
  - intros H. right. auto.
Qed.

(** A match found by [match_at] consumes its text from the position, and
    its groups satisfy what the groups of the pattern guarantee. *)
Lemma match_at_consumes (r : regex) (whole s : str) (m : Match) :
  match_at r whole s = Some m ->
  exists s', s = m_text m ++ s' /\ consumes r (m_text m) [] (m_caps m).
Proof.
  unfold match_at. intros H.
  apply run_consumes in H as (w & s' & g' & -> & Hc & H).
  injection H as <-. cbn [m_text m_caps]. exists s'.
  rewrite length_app.
  replace (length w + length s' - length s')%nat with (length w) by lia.
  rewrite take_app_length. split; [reflexivity | exact Hc].
Qed.

Lemma finditer_groups (Q : nat -> str -> Prop) (r : regex) (content : str)
      (m : Match) (i : nat) (t : str) :
  groups_hold Q r ->
  In m (finditer r content) -> group m i = Some t -> Q i t.
Proof.
  intros HQ Hin Hg. apply finditer_from_In in Hin as (pre & s0 & _ & Hm).
  apply match_at_consumes in Hm as (s' & _ & Hc).
  pose proof (consumes_groups Q _ _ _ _ Hc HQ (List.Forall_nil _)) as HF.
  rewrite List.Forall_forall in HF.
  apply (HF (i, t)), lookup_cap_In, Hg.
Qed.

Lemma finditer_nonempty (r : regex) (content : str) (m : Match) :
  nullable r = false -> In m (finditer r content) -> m_text m <> [].
Proof.
  intros Hn Hin. apply finditer_from_In in Hin as (pre & s0 & _ & Hm).
  apply match_at_consumes in Hm as (s' & _ & Hc).
  eapply consumes_nullable; eassumption.
Qed.

End ConsumesFacts.

Section Identifiers.

Lemma plus_word_identifier (w : str) (g g' : caps) :
  consumes (Plus true word) w g g' -> is_identifier w = true.
Proof.
  intros H. apply consumes_plus_chr in H as (Hne & Hw & _).
  unfold is_identifier. rewrite Hw. destruct w; [congruence | reflexivity].
Qed.

Lemma create_groups : groups_hold name_group create_table_regex.
Proof.
  cbn. unfold name_group. repeat split; auto; intros w g g' H E;
    try discriminate E.
  apply plus_word_identifier in H. exact H.
Qed.

Lemma column_groups : groups_hold name_group column_regex.
Proof.
  cbn. unfold name_group. repeat split; auto; intros w g g' H E;
    try discriminate E.
  apply plus_word_identifier in H. exact H.
Qed.

Lemma insert_groups : groups_hold insert_group insert_into_regex.
Proof.
  cbn. unfold insert_group.
  repeat match goal with
         | |- _ /\ _ => split
         | |- True => exact I
         end; intros w g g' H; repeat split; try intros E; try discriminate.
  - apply plus_word_identifier in H. exact H.
  - apply (consumes_plus_chr true) in H as (Hne & _ & _). congruence.
  - apply (consumes_plus_chr true) in H as (_ & Hw & _). exact Hw.
  - apply (consumes_plus_chr false) in H as (Hne & _ & _). congruence.
Qed.

Lemma column_of_line_identifier (line name : str) :
  column_of_line line = Some name -> is_identifier name = true.
Proof.
  unfold column_of_line, re_match. intros H.
  destruct (match_at column_regex _ _) as [m|] eqn:E; [|discriminate].
  destruct (negb _); [|discriminate].
  apply match_at_consumes in E as (s' & _ & Hc).
  pose proof (consumes_groups name_group _ _ _ _ Hc column_groups
                (List.Forall_nil _)) as HF.
  rewrite List.Forall_forall in HF.
  apply (HF (1%nat, name)); [|reflexivity]. apply lookup_cap_In, H.
Qed.

Lemma extract_columns_identifiers (columns_def : str) :
  Forall (fun c => is_identifier c = true) (_extract_columns columns_def).
Proof.
  unfold _extract_columns.
  generalize (Re.split column_split_regex columns_def). intros column_lines.
  assert (H : forall acc : list str,
             Forall (fun c => is_identifier c = true) acc ->
             Forall (fun c => is_identifier c = true)
                    (fold_left (fun columns line =>
                                  match column_of_line line with
                                  | Some column_name => columns ++ [column_name]
                                  | None => columns
                                  end) column_lines acc)).
  { induction column_lines as [|line rest IH]; intros acc Hacc; cbn [fold_left];
      [exact Hacc|].
    apply IH. destruct (column_of_line line) as [name|] eqn:E; [|exact Hacc].
    apply Forall_app. split; [exact Hacc|].
    constructor; [|constructor]. eapply column_of_line_identifier, E. }
  apply H. constructor.
Qed.

(** The first loop enters tables whose column lists are what
    [_extract_columns] returns. *)
Lemma creates_Forall_columns (P : Table -> Prop) (ms : list Match) :
  (forall columns_def, P (mkTable (_extract_columns columns_def) [])) ->
  forall tables : Tables,
    Forall (fun kt => P kt.2) tables ->
    Forall (fun kt => P kt.2) (fold_left create_step ms tables).
Proof.
  intros HP. induction ms as [|m ms IH]; intros tables H; [exact H|].
  cbn [fold_left]. apply IH. unfold create_step.
  destruct (group m 1) as [n|]; [|exact H].
  destruct (group m 2) as [body|]; [|exact H].
  destruct (Py.truthy _); [|exact H].
  apply dict_set_Forall; [exact H | apply HP].
Qed.

End Identifiers.

(** X1: every table name of the registry and every column name of its
    tables is an identifier: a non-empty text of letters, digits and
    underscores. *)
Theorem X1_names_are_identifiers :
  forall (content name : str) (t : Table),
    dict_get (parse content) name = Some t ->
    is_identifier name = true
    /\ Forall (fun c => is_identifier c = true) (t_columns t).
Proof.
  intros content name t Ht. split.
  - assert (H : is_Some (dict_get (parse content) name)) by (rewrite Ht; eauto).
    unfold parse in H. apply inserts_keep_keys, creates_keys in H.
    destruct H as [[t0 H]|(m & Hin & Hg)]; [discriminate H|].
    refine (finditer_groups name_group _ _ _ _ _ create_groups Hin Hg eq_refl).
  - refine (dict_get_Forall
              (fun t => Forall (fun c => is_identifier c = true) (t_columns t))
              _ _ _ _ Ht).
    unfold parse.
    apply (inserts_Forall
             (fun t => Forall (fun c => is_identifier c = true) (t_columns t))).
    + intros m t0 new _ H0 _. exact H0.
    + apply (creates_Forall_columns
               (fun t => Forall (fun c => is_identifier c = true) (t_columns t)));
        [|constructor].
      intros body. apply extract_columns_identifiers.
Qed.

Lemma X1_names_are_identifiers_witness :
  is_identifier "t_1" = true
  /\ Forall (fun c => is_identifier c = true) (strs ["id"; "kind"]).
Proof.
  apply (X1_names_are_identifiers
           "CREATE TABLE `t_1` (`id` INT, `kind` ENUM('a,b'), KEY (`id`)) ENGINE=X;"
           "t_1" (mkTable (strs ["id"; "kind"]) [])).
  vm_compute. reflexivity.
Defined.

(** X2: in every insert statement the pattern finds, the table name is an
    identifier, the values body is not empty, and the column list, when
    there is one, is not empty and holds no [)]; so [if columns_str] holds
    exactly of the statements with a column list. *)
Theorem X2_insert_statement_groups :
  forall (content : str) (m : Match),
    In m (finditer insert_into_regex content) ->
    (forall name, group m 1 = Some name -> is_identifier name = true)
    /\ (forall cs, group m 2 = Some cs -> cs <> [] /\ none_in ")" cs = true)
    /\ (forall vs, group m 3 = Some vs -> vs <> [])
    /\ (explicit_columns m = true <-> group m 2 <> None).
Proof.
  intros content m Hin.
  assert (HQ : forall i t, group m i = Some t -> insert_group i t)
    by (intros i t; apply (finditer_groups insert_group _ _ _ _ _ insert_groups Hin)).
  repeat split.
  - intros name H. destruct (HQ 1%nat name H) as (H1 & _). auto.
  - destruct (HQ 2%nat cs H) as (_ & H2 & _). destruct (H2 eq_refl). assumption.
  - destruct (HQ 2%nat cs H) as (_ & H2 & _). destruct (H2 eq_refl). assumption.
  - intros vs H. destruct (HQ 3%nat vs H) as (_ & _ & H3). auto.
  - unfold explicit_columns, given. destruct (group m 2); [discriminate | intros H; discriminate H].
  - unfold explicit_columns, given. intros H.
    destruct (group m 2) as [cs|] eqn:E; [|congruence]. cbn.
    destruct (HQ 2%nat cs E) as (_ & H2 & _). destruct (H2 eq_refl) as [Hne _].
    destruct cs; [congruence | reflexivity].
Qed.

Lemma X2_insert_statement_groups_witness :
  (forall name,
      group (first_match insert_into_regex "INSERT INTO t (name, id) VALUES ('Bob', 7);") 1
      = Some name -> is_identifier name = true)
  /\ (forall cs,
         group (first_match insert_into_regex "INSERT INTO t (name, id) VALUES ('Bob', 7);") 2
         = Some cs -> cs <> [] /\ none_in ")" cs = true)
  /\ (forall vs,
         group (first_match insert_into_regex "INSERT INTO t (name, id) VALUES ('Bob', 7);") 3
         = Some vs -> vs <> [])
  /\ (explicit_columns (first_match insert_into_regex "INSERT INTO t (name, id) VALUES ('Bob', 7);") = true
      <-> group (first_match insert_into_regex "INSERT INTO t (name, id) VALUES ('Bob', 7);") 2 <> None).
Proof.
  apply (X2_insert_statement_groups "INSERT INTO t (name, id) VALUES ('Bob', 7);").
  vm_compute. left. reflexivity.
Defined.

Section Tokens.

Lemma quote_any_case (c : ascii) :
  Py.ceqb (Py.lower_char c) (Py.lower_char "'") = true -> c = "'"%char.
Proof.
  destruct c as [[] [] [] [] [] [] [] []]; vm_compute; intros H;
    try discriminate H; reflexivity.
Qed.

Lemma letter_not_comma (c d : ascii) :
  Py.isalpha d = true ->
  Py.ceqb (Py.lower_char c) (Py.lower_char d) = true ->
  negb (Py.mem_char [","%char] c) = true.
Proof.
  intros Hd H. destruct (Py.ceqb c ",") eqn:E.
  - apply ceqb_eq in E. subst c. apply ceqb_eq in H.
    revert Hd H. destruct d as [[] [] [] [] [] [] [] []]; vm_compute;
      intros Hd H; try discriminate Hd; discriminate H.
  - cbn. unfold Py.ceqb in *. now rewrite E.
Qed.

Ltac invert_consumes :=
  repeat match goal with
         | H : consumes (Seq _ _) _ _ _ |- _ => inversion H; subst; clear H
         | H : consumes (Chr _) _ _ _ |- _ => inversion H; subst; clear H
         end.

(** What a token looks like: not empty, and either opened by a quote or
    free of commas. *)
Lemma value_token_shape (w : str) (g g' : caps) :
  consumes value_regex w g g' ->
  w <> [] /\ (Py.startswith w "'" = true \/ none_in "," w = true).
Proof.
  unfold value_regex. cbn [seqs lit map list_ascii_of_string]. unfold chr.
  intros H. inversion H as [| | |a b w0 g0 g1 Ha|a b w0 g0 g1 Hb| | | | | |];
    subst; clear H.
  - invert_consumes. split; [cbn [app]; discriminate|]. left.
    match goal with
    | Hq : Py.ceqb (Py.lower_char ?c) _ = true |- Py.startswith ((?c :: _) ++ _) _ = _ =>
        apply quote_any_case in Hq; subst c
    end.
    reflexivity.
  - inversion Hb as [| | |a b w1 g2 g3 Hn|a b w1 g2 g3 Hp| | | | | |];
      subst; clear Hb.
    + invert_consumes. split; [cbn [app]; discriminate|]. right.
      unfold none_in. cbn [app forallb].
      repeat match goal with
             | Hc : Py.ceqb (Py.lower_char ?c) (Py.lower_char ?d) = true |- _ =>
                 rewrite (letter_not_comma c d eq_refl Hc); clear Hc
             end.
      reflexivity.
    + apply (consumes_plus_chr true) in Hp as (Hne & Hw & _).
      split; [exact Hne | right; exact Hw].
Qed.

End Tokens.

(** X3: every token of a tuple is a non-empty text, and a token that is
    not opened by a quote holds no comma. *)
Theorem X3_tokens_shape :
  forall (val_str t : str),
    In t (tokenize val_str) ->
    t <> [] /\ (Py.startswith t "'" = true \/ none_in "," t = true).
Proof.
  intros val_str t Hin. unfold tokenize, findall in Hin.
  apply in_map_iff in Hin as (m & <- & Hin).
  apply finditer_from_In in Hin as (pre & s0 & _ & Hm).
  apply match_at_consumes in Hm as (s' & _ & Hc).
  eapply value_token_shape, Hc.
Qed.

Lemma X3_tokens_shape_witness :
  ("'a,b'" : str) <> [] /\ (Py.startswith "'a,b'" "'" = true \/ none_in "," "'a,b'" = true).
Proof.
  apply (X3_tokens_shape "(1,'a,b',NULL)" "'a,b'").
  vm_compute. right. left. reflexivity.
Defined.

(** ** More of [_split_values] *)

Section SplitMore.

Lemma lstrip_by_idem (p : ascii -> bool) (x : str) :
  Py.lstrip_by p (Py.lstrip_by p x) = Py.lstrip_by p x.
Proof.
  induction x as [|c x IH]; [reflexivity|]. cbn.
  destruct (p c) eqn:E; [exact IH|]. cbn. now rewrite E.
Qed.

Lemma lstrip_by_snoc (p : ascii -> bool) (c : ascii) (l : str) :
  p c = false -> Py.lstrip_by p (l ++ [c]) = Py.lstrip_by p l ++ [c].
Proof.
  intros Hc. induction l as [|a l IH]; cbn; [now rewrite Hc|].
  destruct (p a); [exact IH | reflexivity].
Qed.

(** Trimming a trimmed text changes nothing. *)
Lemma strip_by_idem (p : ascii -> bool) (x : str) :
  Py.strip_by p (Py.strip_by p x) = Py.strip_by p x.
Proof.
  unfold Py.strip_by at 2. unfold Py.rstrip_by.
  set (z := Py.lstrip_by p x).
  assert (Hz : Py.lstrip_by p z = z) by apply lstrip_by_idem.
  unfold Py.strip_by, Py.rstrip_by.
  assert (Hl : Py.lstrip_by p (rev (Py.lstrip_by p (rev z)))
               = rev (Py.lstrip_by p (rev z))).
  { destruct z as [|c y]; [reflexivity|].
    assert (Hc : p c = false).
    { cbn in Hz. destruct (p c); [|reflexivity].
      exfalso. clear -Hz.
      assert (Hlen : forall l : str,
                 (length (Py.lstrip_by p l) <= length l)%nat)
        by (clear; induction l as [|a l IH]; cbn; [lia | destruct (p a); cbn; lia]).
      specialize (Hlen y). rewrite Hz in Hlen. cbn in Hlen. lia. }
    cbn [rev]. rewrite lstrip_by_snoc by exact Hc.
    rewrite rev_app_distr. cbn. now rewrite Hc. }
  rewrite Hl, rev_involutive, lstrip_by_idem. reflexivity.
Qed.

(** The tuple texts collected so far, and the ones returned, are trimmed
    and not empty. *)
Lemma split_step_values (st : SplitState) (c : ascii) :
  Forall (fun t => t <> [] /\ Py.strip t = t) (values st) ->
  Forall (fun t => t <> [] /\ Py.strip t = t) (values (split_step st c)).
Proof.
  intros H. rewrite split_step_cases. cbv zeta.
  destruct (top_level_comma _ _); [|exact H].
  destruct (Py.truthy (Py.strip (current st))) eqn:E; [|exact H].
  cbn [values]. apply Forall_app. split; [exact H|].
  constructor; [|constructor]. split.
  - destruct (Py.strip (current st)); [discriminate E | discriminate].
  - apply strip_by_idem.
Qed.

Lemma split_fold_values (s : str) :
  forall st : SplitState,
    Forall (fun t => t <> [] /\ Py.strip t = t) (values st) ->
    Forall (fun t => t <> [] /\ Py.strip t = t)
           (values (fold_left split_step s st)).
Proof.
  induction s as [|c s IH]; intros st H; [exact H|].
  cbn [fold_left]. apply IH, split_step_values, H.
Qed.

Lemma not_in_chars (chars : str) (c d : ascii) :
  negb (Py.mem_char chars c) = true -> In d chars -> Py.ceqb c d = false.
Proof.
  unfold Py.mem_char. rewrite negb_true_iff. intros H Hd.
  destruct (Py.ceqb c d) eqn:E; [|reflexivity].
  rewrite <- H. symmetry. apply existsb_exists. exists d. split; assumption.
Qed.

(** Inside a string, characters other than the quote and the backslash
    are added to the current tuple text and change nothing else. *)
Lemma scan_in_string (t : str) :
  forall st : SplitState,
    in_string st = true -> escape st = false ->
    none_in "'\" t = true ->
    fold_left split_step t st
    = mkSplit (values st) (current st ++ t) (depth st) true false.
Proof.
  induction t as [|c t IH]; intros [vs cur d ins esc] Hi He Ht;
    cbn [in_string escape values current depth] in *; subst.
  - cbn. now rewrite app_nil_r.
  - unfold none_in in Ht. cbn [forallb] in Ht.
    apply andb_true_iff in Ht as [Hc Ht].
    assert (Hq : Py.ceqb c "'" = false)
      by (apply (not_in_chars _ _ _ Hc); left; reflexivity).
    assert (Hb : Py.ceqb c "\" = false)
      by (apply (not_in_chars _ _ _ Hc); right; left; reflexivity).
    assert (Hs : split_step (mkSplit vs cur d true false) c
                 = mkSplit vs (cur ++ [c]) d true false).
    { unfold split_step. cbn [in_string escape values current depth].
      rewrite Hq, Hb. cbn [andb negb]. rewrite !andb_false_r. reflexivity. }
    cbn [fold_left]. rewrite Hs, IH; [|reflexivity|reflexivity|exact Ht].
    cbn [in_string escape values current depth].
    now rewrite <- app_assoc.
Qed.

(** Between parentheses and outside a string, characters other than the
    quote and the parentheses are added to the current tuple text and
    change nothing else. *)
Lemma scan_in_parens (t : str) :
  forall st : SplitState,
    in_string st = false -> escape st = false -> depth st <> 0 ->
    none_in "'()" t = true ->
    fold_left split_step t st
    = mkSplit (values st) (current st ++ t) (depth st) false false.
Proof.
  induction t as [|c t IH]; intros [vs cur d ins esc] Hi He Hd Ht;
    cbn [in_string escape values current depth] in *; subst.
  - cbn. now rewrite app_nil_r.
  - unfold none_in in Ht. cbn [forallb] in Ht.
    apply andb_true_iff in Ht as [Hc Ht].
    assert (Hq : Py.ceqb c "'" = false)
      by (apply (not_in_chars _ _ _ Hc); left; reflexivity).
    assert (Ho : Py.ceqb c "(" = false)
      by (apply (not_in_chars _ _ _ Hc); right; left; reflexivity).
    assert (Hcl : Py.ceqb c ")" = false)
      by (apply (not_in_chars _ _ _ Hc); right; right; left; reflexivity).
    assert (Hz : (d =? 0) = false) by (apply Z.eqb_neq; exact Hd).
    assert (Hs : split_step (mkSplit vs cur d false false) c
                 = mkSplit vs (cur ++ [c]) d false false).
    { unfold split_step. cbn [in_string escape values current depth].
      rewrite Hq, Ho, Hcl. cbn [andb negb]. rewrite !andb_false_r. cbn [andb].
      rewrite Hz, andb_false_r. reflexivity. }
    cbn [fold_left]. rewrite Hs, IH; [|reflexivity|reflexivity|exact Hd|exact Ht].
    cbn [in_string escape values current depth].
    now rewrite <- app_assoc.
Qed.

(** The scan of one tuple without quotes and inner parentheses. *)
Lemma scan_tuple (t : str) (vs : list str) (esc : bool) :
  none_in "'()" t = true ->
  fold_left split_step (tuple_text t) (mkSplit vs [] 0 false esc)
  = mkSplit vs (tuple_text t) 0 false false.
Proof.
  intros Ht. unfold tuple_text.
  change ("("%char :: t ++ [")"%char]) with (["("%char] ++ t ++ [")"%char]).
  rewrite !fold_left_app.
  change (fold_left split_step ["("%char] (mkSplit vs [] 0 false esc))
    with (mkSplit vs ["("%char] 1 false false).
  rewrite (scan_in_parens t (mkSplit vs ["("%char] 1 false false));
    [|reflexivity|reflexivity|discriminate|exact Ht].
  cbn [in_string escape values current depth fold_left].
  replace (split_step (mkSplit vs (["("%char] ++ t) 1 false false) ")")
    with (mkSplit vs ((["("%char] ++ t) ++ [")"%char]) 0 false false)
    by reflexivity.
  now rewrite <- app_assoc.
Qed.

Lemma strip_tuple_text (t : str) : Py.strip (tuple_text t) = tuple_text t.
Proof. unfold Py.strip, tuple_text. apply strip_by_ends; reflexivity. Qed.

Lemma split_tuples (ts : list str) :
  Forall (fun t => none_in "'()" t = true) ts ->
  forall (vs : list str) (esc : bool),
    split_finish (fold_left split_step (join_with "," (map tuple_text ts))
                            (mkSplit vs [] 0 false esc))
    = vs ++ map tuple_text ts.
Proof.
  induction 1 as [|t ts Ht Hts IH]; intros vs esc.
  - cbn. now rewrite app_nil_r.
  - destruct ts as [|t' ts].
    + cbn [map join_with]. rewrite (scan_tuple t vs esc Ht).
      unfold split_finish. cbn [values current].
      rewrite strip_tuple_text. reflexivity.
    + change (join_with "," (map tuple_text (t :: t' :: ts)))
        with (tuple_text t ++ [","%char] ++ join_with "," (map tuple_text (t' :: ts))).
      rewrite !fold_left_app, (scan_tuple t vs esc Ht).
      replace (fold_left split_step [","%char]
                         (mkSplit vs (tuple_text t) 0 false false))
        with (mkSplit (vs ++ [tuple_text t]) [] 0 false false).
      * rewrite IH. cbn [map]. now rewrite <- app_assoc.
      * cbn [fold_left]. unfold split_step.
        cbn [in_string escape values current depth].
        rewrite strip_tuple_text. reflexivity.
Qed.

End SplitMore.

(** X4: every tuple text [_split_values] returns is trimmed and not
    empty. *)
Theorem X4_tuples_trimmed :
  forall (values_str t : str),
    In t (_split_values values_str) -> t <> [] /\ Py.strip t = t.
Proof.
  intros s t Hin.
  assert (H : Forall (fun t => t <> [] /\ Py.strip t = t) (_split_values s)).
  { rewrite split_values_unfold. unfold split_finish.
    pose proof (split_fold_values s split_init (List.Forall_nil _)) as Hv.
    destruct (Py.truthy (Py.strip (current (fold_left split_step s split_init))))
      eqn:E; [|exact Hv].
    apply Forall_app. split; [exact Hv|].
    constructor; [|constructor]. split.
    - destruct (Py.strip _); [discriminate E | discriminate].
    - apply strip_by_idem. }
  rewrite List.Forall_forall in H. apply H, Hin.
Qed.

Lemma X4_tuples_trimmed_witness :
  ("(2)" : str) <> [] /\ Py.strip "(2)" = "(2)" :> str.
Proof.
  apply (X4_tuples_trimmed " (1) ,  (2)  , " "(2)").
  vm_compute. right. left. reflexivity.
Defined.

(** X5: a tuple that holds one quoted text without quotes and backslashes
    inside is returned whole, whatever commas and parentheses the text
    holds. *)
Theorem X5_quoted_text_not_split :
  forall t : str,
    none_in "'\" t = true ->
    _split_values (("('" : str) ++ t ++ "')") = [("('" : str) ++ t ++ "')"].
Proof.
  intros t Ht. rewrite split_values_unfold.
  change (("('" : str) ++ t ++ "')") with (("('" : str) ++ t ++ ("')" : str)).
  rewrite !fold_left_app.
  change (fold_left split_step ("('" : str) split_init)
    with (mkSplit [] ("('" : str) 1 true false).
  rewrite (scan_in_string t (mkSplit [] ("('" : str) 1 true false));
    [|reflexivity|reflexivity|exact Ht].
  cbn [in_string escape values current depth].
  change (fold_left split_step ("')" : str)
                    (mkSplit [] (("('" : str) ++ t) 1 true false))
    with (mkSplit [] (((("('" : str) ++ t) ++ ["'"%char]) ++ [")"%char]) 0 false false).
  unfold split_finish. cbn [values current].
  replace ((((("('" : str) ++ t) ++ ["'"%char]) ++ [")"%char]))
    with ("("%char :: ("'"%char :: t ++ ["'"%char]) ++ [")"%char])
    by (cbn; now rewrite <- !app_assoc).
  unfold Py.strip. rewrite strip_by_ends by reflexivity.
  cbn. now rewrite <- !app_assoc.
Qed.

Lemma X5_quoted_text_not_split_witness :
  _split_values "('a,(b),c')" = strs ["('a,(b),c')"].
Proof.
  apply (X5_quoted_text_not_split "a,(b),c"). vm_compute. reflexivity.
Defined.

(** X6: a values body made of tuples without quotes and inner
    parentheses, joined by commas, is split into exactly those tuples, in
    their order. *)
Theorem X6_plain_tuples_split :
  forall ts : list str,
    Forall (fun t => none_in "'()" t = true) ts ->
    _split_values (join_with "," (map tuple_text ts)) = map tuple_text ts.
Proof.
  intros ts Hts. rewrite split_values_unfold.
  apply (split_tuples ts Hts [] false).
Qed.

Lemma X6_plain_tuples_split_witness :
  _split_values "(1,2),(3, NULL),()" = strs ["(1,2)"; "(3, NULL)"; "()"].
Proof.
  apply (X6_plain_tuples_split (strs ["1,2"; "3, NULL"; ""])).
  repeat constructor.
Defined.

(** ** More of the registry *)

Section RegistryMore.

Lemma dict_get_None_keys (tables : Tables) (name : str) :
  dict_get tables name = None -> ~ In name (map fst tables).
Proof.
  induction tables as [|[k t] rest IH]; cbn; [tauto|].
  destruct (Py.str_eqb k name) eqn:E; [discriminate|].
  intros H [Hk|Hin]; [|exact (IH H Hin)].
  subst k. rewrite str_eqb_refl in E. discriminate.
Qed.

Lemma dict_set_keys (tables : Tables) (name : str) (t : Table) :
  map fst (dict_set tables name t)
  = match dict_get tables name with
    | Some _ => map fst tables
    | None => map fst tables ++ [name]
    end.
Proof.
  induction tables as [|[k t0] rest IH]; cbn; [reflexivity|].
  destruct (Py.str_eqb k name); cbn; [reflexivity|].
  rewrite IH. destruct (dict_get rest name); reflexivity.
Qed.

Lemma dict_set_NoDup (tables : Tables) (name : str) (t : Table) :
  NoDup (map fst tables) -> NoDup (map fst (dict_set tables name t)).
Proof.
  intros H. rewrite dict_set_keys.
  destruct (dict_get tables name) eqn:E; [exact H|].
  apply NoDup_app. repeat split.
  - exact H.
  - intros x Hx Hn. apply list_elem_of_In in Hx.
    apply list_elem_of_singleton in Hn. subst x.
    exact (dict_get_None_keys _ _ E Hx).
  - apply NoDup_singleton.
Qed.

Lemma create_step_NoDup (tables : Tables) (m : Match) :
  NoDup (map fst tables) -> NoDup (map fst (create_step tables m)).
Proof.
  intros H. unfold create_step.
  destruct (group m 1); [|exact H]. destruct (group m 2); [|exact H].
  destruct (Py.truthy _); [|exact H]. apply dict_set_NoDup, H.
Qed.

Lemma dict_set_schema (tables : Tables) (name : str) (t : Table)
      (new_rows : list (list Value)) :
  dict_get tables name = Some t ->
  schema_of (dict_set tables name (mkTable (t_columns t) new_rows))
  = schema_of tables.
Proof.
  unfold schema_of.
  induction tables as [|[k t0] rest IH]; cbn; [discriminate|].
  destruct (Py.str_eqb k name); cbn.
  - now intros [= ->].
  - intros H. now rewrite IH.
Qed.

(** What [insert_step] does to the registry: it appends rows to at most
    one known table. *)
Lemma insert_step_appends (tables : Tables) (m : Match) :
  insert_step tables m = tables
  \/ exists name t new_rows,
      dict_get tables name = Some t
      /\ insert_step tables m
         = dict_set tables name (mkTable (t_columns t) (t_rows t ++ new_rows)).
Proof.
  destruct (group m 1) as [n|] eqn:H1;
    [|left; unfold insert_step; now rewrite H1].
  destruct (group m 3) as [vs|] eqn:H3;
    [|left; unfold insert_step; now rewrite H1, H3].
  destruct (dict_get tables n) as [t|] eqn:Ht;
    [|left; unfold insert_step; now rewrite H1, H3, Ht].
  rewrite (insert_step_known _ _ _ _ _ H1 H3 Ht).
  destruct (group m 2) as [[|c cs]|]; cbv zeta;
    try destruct (Nat.eqb _ _); auto; right; eauto.
Qed.

Lemma insert_step_schema (tables : Tables) (m : Match) :
  schema_of (insert_step tables m) = schema_of tables.
Proof.
  destruct (insert_step_appends tables m) as [->|(n & t & new & Ht & ->)];
    [reflexivity|].
  apply dict_set_schema, Ht.
Qed.

Lemma insert_step_rows (tables : Tables) (m : Match) (name : str) (t : Table) :
  dict_get tables name = Some t ->
  exists new_rows,
    dict_get (insert_step tables m) name
    = Some (mkTable (t_columns t) (t_rows t ++ new_rows)).
Proof.
  intros Ht.
  destruct (insert_step_appends tables m) as [->|(n & tn & new & Hn & ->)].
  - exists []. now rewrite app_nil_r, table_eta.
  - destruct (decide (n = name)) as [->|Hne].
    + rewrite Hn in Ht. injection Ht as ->.
      exists new. apply dict_get_set_same.
    + exists []. rewrite dict_get_set_other by exact Hne.
      now rewrite app_nil_r, table_eta.
Qed.

Lemma insert_step_columns (tables : Tables) (m : Match) (name : str) :
  t_columns <$> dict_get (insert_step tables m) name
  = t_columns <$> dict_get tables name.
Proof.
  destruct (insert_step_appends tables m) as [->|(n & t & new & Ht & ->)];
    [reflexivity|].
  destruct (decide (n = name)) as [->|Hne].
  - now rewrite dict_get_set_same, Ht.
  - now rewrite dict_get_set_other by exact Hne.
Qed.

Lemma inserts_columns (ms : list Match) (name : str) :
  forall tables : Tables,
    t_columns <$> dict_get (fold_left insert_step ms tables) name
    = t_columns <$> dict_get tables name.
Proof.
  induction ms as [|m ms IH]; intros tables; [reflexivity|].
  cbn [fold_left]. rewrite IH. apply insert_step_columns.
Qed.

(** What [create_step] leaves under a name. *)
Lemma create_step_get (tables : Tables) (m : Match) (name : str) :
  dict_get (create_step tables m) name
  = match declares name m with
    | Some columns => Some (mkTable columns [])
    | None => dict_get tables name
    end.
Proof.
  unfold create_step, declares.
  destruct (group m 1) as [n|]; [|reflexivity].
  destruct (group m 2) as [body|]; [|reflexivity].
  cbv zeta.
  destruct (Py.truthy (_extract_columns body));
    [|rewrite andb_false_r; reflexivity].
  rewrite andb_true_r.
  destruct (Py.str_eqb n name) eqn:E.
  - apply str_eqb_eq in E. subst n. apply dict_get_set_same.
  - apply dict_get_set_other.
    intros ->. rewrite str_eqb_refl in E. discriminate.
Qed.

(** After the loop over the schema statements a name stands for the last
    statement that entered it. *)
Lemma creates_last (ms : list Match) (name : str) :
  forall tables : Tables,
    dict_get (fold_left create_step ms tables) name
    = match last (omap (declares name) ms) with
      | Some columns => Some (mkTable columns [])
      | None => dict_get tables name
      end.
Proof.
  induction ms as [|m ms IH] using rev_ind; intros tables; [reflexivity|].
  rewrite fold_left_app, omap_app. cbn [fold_left].
  rewrite create_step_get.
  change (omap (declares name) [m])
    with (match declares name m with Some c => [c] | None => [] end).
  destruct (declares name m) as [columns|].
  - now rewrite last_snoc.
  - rewrite app_nil_r. apply IH.
Qed.

End RegistryMore.

(** X7: a repeated schema statement overwrites: the registry never holds
    two tables of one name, and the columns it holds for a name are those
    of the last schema statement of the text that names the table and
    yields a column (none, when there is no such statement). *)
Theorem X7_repeated_create_overwrites :
  forall content name : str,
    NoDup (map fst (parse content))
    /\ t_columns <$> dict_get (parse content) name
       = last (omap (declares name) (finditer create_table_regex content)).
Proof.
  intros content name. unfold parse. split.
  - assert (Hc : forall ms tables,
               NoDup (map fst tables) ->
               NoDup (map fst (fold_left create_step ms tables))).
    { induction ms as [|m ms IH]; intros tables H; [exact H|].
      cbn [fold_left]. apply IH, create_step_NoDup, H. }
    assert (Hi : forall ms tables,
               map fst (fold_left insert_step ms tables) = map fst tables).
    { induction ms as [|m ms IH]; intros tables; [reflexivity|].
      cbn [fold_left]. rewrite IH.
      pose proof (insert_step_schema tables m) as Hs.
      apply (f_equal (map fst)) in Hs. unfold schema_of in Hs.
      rewrite !map_map in Hs. exact Hs. }
    rewrite Hi. apply Hc. constructor.
  - rewrite inserts_columns, creates_last.
    destruct (last _); reflexivity.
Qed.

(** A table declared twice: the second column list stands, in the place
    of the first. *)
Example parse_redeclared :
  schema_of (parse "CREATE TABLE t (a int) ENGINE=X; CREATE TABLE u (x int) ENGINE=X; CREATE TABLE t (b int, c int) ENGINE=X;")
  = [("t" : str, strs ["b"; "c"]); ("u" : str, strs ["x"])].
Proof. vm_compute. reflexivity. Qed.

(** X8: the insert statements only append rows: they add, drop and
    reorder no table and change no column list, and every table keeps the
    rows it had, in their order, before the new ones. *)
Theorem X8_inserts_only_append :
  forall (ms : list Match) (tables : Tables),
    schema_of (fold_left insert_step ms tables) = schema_of tables
    /\ forall (name : str) (t : Table),
        dict_get tables name = Some t ->
        exists new_rows,
          dict_get (fold_left insert_step ms tables) name
          = Some (mkTable (t_columns t) (t_rows t ++ new_rows)).
Proof.
  induction ms as [|m ms IH]; intros tables.
  - split; [reflexivity|]. intros name t Ht. exists [].
    cbn. now rewrite app_nil_r, table_eta.
  - cbn [fold_left]. destruct (IH (insert_step tables m)) as [Hs Hr]. split.
    + rewrite Hs. apply insert_step_schema.
    + intros name t Ht.
      destruct (insert_step_rows tables m name t Ht) as (new1 & H1).
      destruct (Hr _ _ H1) as (new2 & H2). cbn [t_columns t_rows] in H2.
      exists (new1 ++ new2). now rewrite app_assoc.
Qed.

Lemma X8_inserts_only_append_witness :
  exists new_rows,
    dict_get (fold_left insert_step
                (finditer insert_into_regex
                   "INSERT INTO t VALUES (2,'Bo',31); INSERT INTO u VALUES (1); INSERT INTO t (age, name, id) VALUES (5,'Cy',3);")
                people) "t"
    = Some (mkTable (strs ["id"; "name"; "age"])
                    ([[Integer 1; Text "Al"; Integer 30]] ++ new_rows)).
Proof.
  apply (proj2 (X8_inserts_only_append _ people) "t"
               (mkTable (strs ["id"; "name"; "age"]) [[Integer 1; Text "Al"; Integer 30]])).
  vm_compute. reflexivity.
Defined.

(** * The navigator *)

(** ** Pages *)

Section Pages.

Lemma page_count_bounds (total size : Z) :
  0 <= total -> 0 < size ->
  (Nav.page_count total size - 1) * size < total <= Nav.page_count total size * size.
Proof.
  intros Ht Hs. unfold Nav.page_count.
  pose proof (Z.div_mod total size ltac:(lia)) as Hd.
  pose proof (Z.mod_pos_bound total size Hs) as Hm.
  destruct (total mod size =? 0) eqn:E.
  - apply Z.eqb_eq in E. nia.
  - apply Z.eqb_neq in E. nia.
Qed.

(** A slice between two indices that are not negative. *)
Lemma slice_list_nonneg {A : Type} (l : list A) (lo hi : Z) :
  0 <= lo -> lo <= hi ->
  Nav.slice_list l lo hi = take (Z.to_nat (hi - lo)) (drop (Z.to_nat lo) l).
Proof.
  intros Hlo Hhi. unfold Nav.slice_list, Py.slice_index.
  assert (E1 : (lo <? 0) = false) by (apply Z.ltb_ge; lia).
  assert (E2 : (hi <? 0) = false) by (apply Z.ltb_ge; lia).
  rewrite E1, E2.
  set (n := length l).
  destruct (Z_le_gt_dec (Z.of_nat n) lo) as [Hbig|Hsmall].
  - replace (Z.to_nat (Z.of_nat n `min` (0 `max` lo))) with n by lia.
    replace (Z.to_nat (Z.of_nat n `min` (0 `max` hi))) with n by lia.
    rewrite Nat.sub_diag, !drop_ge by (subst n; lia).
    now rewrite !take_nil.
  - replace (Z.to_nat (Z.of_nat n `min` (0 `max` lo))) with (Z.to_nat lo) by lia.
    destruct (Z_le_gt_dec (Z.of_nat n) hi) as [Hbig|Hsmall'].
    + replace (Z.to_nat (Z.of_nat n `min` (0 `max` hi))) with n by lia.
      rewrite !take_ge; [reflexivity | |];
        rewrite length_drop; subst n; lia.
    + replace (Z.to_nat (Z.of_nat n `min` (0 `max` hi))) with (Z.to_nat hi) by lia.
      f_equal. lia.
Qed.

Lemma slice_list_page {A : Type} (l : list A) (p size : Z) :
  0 <= p -> 0 <= size ->
  Nav.slice_list l (p * size) (p * size + size)
  = take (Z.to_nat size) (drop (Z.to_nat p * Z.to_nat size) l).
Proof.
  intros Hp Hs. rewrite slice_list_nonneg by nia.
  f_equal; [f_equal; lia | f_equal; nia].
Qed.

(** The pages of [size] items, one after the other, give back the list. *)
Lemma pages_concat {A : Type} (size : nat) :
  forall (k : nat) (l : list A),
    (length l <= k * size)%nat ->
    concat (map (fun i => take size (drop (i * size) l)) (seq 0 k)) = l.
Proof.
  induction k as [|k IH]; intros l Hl.
  - destruct l; [reflexivity | cbn in Hl; lia].
  - cbn [seq map concat]. rewrite <- seq_shift, map_map.
    rewrite drop_0.
    rewrite (map_ext _ (fun i => take size (drop (i * size) (drop size l)))).
    + rewrite IH by (rewrite length_drop; lia). apply take_drop.
    + intros i. rewrite drop_drop. reflexivity.
Qed.

End Pages.

(** X9: the number of pages computed for [total] items in pages of
    [size] items is the least that holds them all: the pages before the
    last hold fewer than [total] items, all the pages hold at least
    [total]. *)
Theorem X9_page_count_is_ceiling :
  forall total size : Z,
    0 <= total -> 0 < size ->
    (Nav.page_count total size - 1) * size < total
    /\ total <= Nav.page_count total size * size.
Proof. intros total size Ht Hs. pose proof (page_count_bounds total size Ht Hs). lia. Qed.

Lemma X9_page_count_is_ceiling_witness :
  (Nav.page_count 41 20 - 1) * 20 < 41 /\ 41 <= Nav.page_count 41 20 * 20.
Proof. apply (X9_page_count_is_ceiling 41 20); lia. Defined.

(** X10: the row pages of [display_page] cover the filtered rows exactly
    once and in order: the pages 0, 1, ... up to the page count, one
    after the other, are the filtered rows; each of these pages holds at
    least one row and at most 20. *)
Theorem X10_pages_cover_rows :
  forall nav : Nav.Navigator,
    let pages := Nav.page_count (Nav.len (Nav.filtered_rows nav)) Nav.page_size in
    concat (map (fun p => Nav.page_data (at_page nav (Z.of_nat p)))
                (seq 0 (Z.to_nat pages)))
    = Nav.filtered_rows nav
    /\ forall p : Z,
        0 <= p < pages ->
        Nav.page_data (at_page nav p) <> []
        /\ Nav.len (Nav.page_data (at_page nav p)) <= 20.
Proof.
  intros nav pages.
  pose proof (page_count_bounds (Nav.len (Nav.filtered_rows nav)) Nav.page_size
                ltac:(unfold Nav.len; lia) ltac:(reflexivity)) as Hb.
  fold pages in Hb. unfold Nav.len, Nav.page_size in Hb.
  assert (Hpage : forall p, 0 <= p ->
             Nav.page_data (at_page nav p)
             = take 20 (drop (Z.to_nat p * 20) (Nav.filtered_rows nav))).
  { intros p Hp. unfold Nav.page_data, at_page. cbn [Nav.current_page Nav.filtered_rows].
    rewrite slice_list_page by (unfold Nav.page_size; lia). reflexivity. }
  split.
  - rewrite (map_ext _ (fun i => take 20 (drop (i * 20) (Nav.filtered_rows nav)))).
    + apply pages_concat. lia.
    + intros i. rewrite Hpage by lia. now rewrite Nat2Z.id.
  - intros p Hp. rewrite Hpage by lia. split.
    + intros E. apply (f_equal (@length _)) in E.
      rewrite length_take, length_drop in E. cbn [length] in E.
      assert (Hlt : (Z.to_nat p * 20 < length (Nav.filtered_rows nav))%nat)
        by (apply Nat2Z.inj_lt; rewrite Nat2Z.inj_mul, Z2Nat.id by lia; nia).
      lia.
    + unfold Nav.len. rewrite length_take. lia.
Qed.

Lemma X10_pages_cover_rows_witness :
  Nav.page_data (at_page (Nav.choose (Nav.init people)
                            (mkTable (strs ["id"; "name"; "age"])
                                     [[Integer 1; Text "Al"; Integer 30]])) 0)
  <> [].
Proof.
  apply (proj2 (X10_pages_cover_rows
                  (Nav.choose (Nav.init people)
                     (mkTable (strs ["id"; "name"; "age"])
                              [[Integer 1; Text "Al"; Integer 30]]))) 0).
  vm_compute. split; [discriminate | reflexivity].
Defined.

(** ** The row search *)

Section Search.

Variable float_repr : spec_float -> str.

Lemma fold_append_filter {A : Type} (f : A -> bool) (l : list A) :
  forall acc : list A,
    fold_left (fun acc x => if f x then acc ++ [x] else acc) l acc
    = acc ++ List.filter f l.
Proof.
  induction l as [|x l IH]; intros acc; cbn [fold_left List.filter].
  - now rewrite app_nil_r.
  - rewrite IH. destruct (f x); [|reflexivity].
    now rewrite <- app_assoc.
Qed.

Lemma row_hit_existsb (query_lower : str) (row : list Value) :
  Nav.row_hit float_repr query_lower row
  = existsb (cell_hit float_repr query_lower) row.
Proof.
  induction row as [|cell rest IH]; [reflexivity|].
  cbn [Nav.row_hit existsb]. fold (cell_hit float_repr query_lower cell).
  destruct (cell_hit float_repr query_lower cell); [reflexivity | exact IH].
Qed.

Lemma filter_sublist {A : Type} (f : A -> bool) (l : list A) :
  sublist (List.filter f l) l.
Proof.
  induction l as [|x l IH]; cbn; [constructor|].
  destruct (f x); now constructor.
Qed.

Lemma apply_row_search_filter (nav : Nav.Navigator) (query : str) :
  Nav.filtered_rows (Nav.apply_row_search float_repr nav query)
  = List.filter (Nav.row_hit float_repr (Py.lower query)) (Nav.all_rows nav).
Proof.
  unfold Nav.apply_row_search. cbn [Nav.filtered_rows].
  now rewrite fold_append_filter.
Qed.

Lemma apply_row_search_sublist (nav : Nav.Navigator) (query : str) :
  sublist (Nav.filtered_rows (Nav.apply_row_search float_repr nav query))
          (Nav.all_rows nav).
Proof. rewrite apply_row_search_filter. apply filter_sublist. Qed.

Lemma lower_upper_char (c : ascii) :
  Py.lower_char (Py.upper_char c) = Py.lower_char c.
Proof. destruct c as [[] [] [] [] [] [] [] []]; reflexivity. Qed.

Lemma lower_lower_char (c : ascii) :
  Py.lower_char (Py.lower_char c) = Py.lower_char c.
Proof. destruct c as [[] [] [] [] [] [] [] []]; reflexivity. Qed.

Lemma lower_upper (s : str) : Py.lower (Py.upper s) = Py.lower s.
Proof.
  unfold Py.lower, Py.upper. rewrite map_map.
  apply map_ext. exact lower_upper_char.
Qed.

Lemma lower_lower (s : str) : Py.lower (Py.lower s) = Py.lower s.
Proof.
  unfold Py.lower. rewrite map_map. apply map_ext. exact lower_lower_char.
Qed.

End Search.

(** X11: [apply_row_search] keeps exactly the rows that hold a cell other
    than [None] whose text holds the query, letter case apart; it keeps
    them in their order, each once. *)
Theorem X11_search_filters_rows :
  forall (float_repr : spec_float -> str) (nav : Nav.Navigator) (query : str),
    Nav.filtered_rows (Nav.apply_row_search float_repr nav query)
    = List.filter (existsb (cell_hit float_repr (Py.lower query)))
                  (Nav.all_rows nav)
    /\ sublist (Nav.filtered_rows (Nav.apply_row_search float_repr nav query))
               (Nav.all_rows nav).
Proof.
  intros float_repr nav query. rewrite apply_row_search_filter. split.
  - apply List.filter_ext. intros row. apply row_hit_existsb.
  - apply filter_sublist.
Qed.

(** X12: on ASCII text the search ignores the letter case of the query
    and of the cells: an ASCII query in upper or in lower case finds the
    same rows as the query as it is typed, and an ASCII text cell in upper
    case is found by the same queries as the cell itself. *)
Theorem X12_search_ignores_case :
  forall (float_repr : spec_float -> str) (nav : Nav.Navigator) (query : str),
    Py.isascii query = true ->
    Nav.filtered_rows (Nav.apply_row_search float_repr nav (Py.upper query))
    = Nav.filtered_rows (Nav.apply_row_search float_repr nav query)
    /\ Nav.filtered_rows (Nav.apply_row_search float_repr nav (Py.lower query))
       = Nav.filtered_rows (Nav.apply_row_search float_repr nav query)
    /\ forall s : str,
        Py.isascii s = true ->
        cell_hit float_repr (Py.lower query) (Text (Py.upper s))
        = cell_hit float_repr (Py.lower query) (Text s).
Proof.
  intros float_repr nav query _. rewrite !apply_row_search_filter.
  rewrite lower_upper, lower_lower. repeat split.
  intros s _. unfold cell_hit. cbn [Nav.str_value]. now rewrite lower_upper.
Qed.

Lemma X12_search_ignores_case_witness :
  Nav.filtered_rows
    (Nav.apply_row_search (fun _ => []) (Nav.choose (Nav.init people)
       (mkTable (strs ["id"; "name"; "age"]) [[Integer 1; Text "Al"; Integer 30]]))
       (Py.upper "aL"))
  = Nav.filtered_rows
      (Nav.apply_row_search (fun _ => []) (Nav.choose (Nav.init people)
         (mkTable (strs ["id"; "name"; "age"]) [[Integer 1; Text "Al"; Integer 30]]))
         "aL").
Proof.
  apply (X12_search_ignores_case (fun _ => []) _ "aL").
  vm_compute. reflexivity.
Defined.

(** ** The command loops *)

Section Commands.

Variable float_repr : spec_float -> str.

Lemma next_page_within (page size total : Z) :
  0 <= total -> 0 < size -> 0 <= page ->
  page + 1 < Nav.page_count total size ->
  paged_within (page + 1) size total.
Proof.
  intros Ht Hs Hp H. pose proof (page_count_bounds total size Ht Hs).
  unfold paged_within. split; [lia | right; nia].
Qed.

Lemma previous_page_within (page size total : Z) :
  0 < size -> paged_within page size total -> page <> 0 ->
  paged_within (page - 1) size total.
Proof. unfold paged_within. intros Hs [Hp [->|H]] Hne; [lia|]. split; [lia | right; nia]. Qed.

Lemma init_ok (tables : Tables) : nav_ok Nav.Selecting (Nav.init tables).
Proof.
  unfold nav_ok, paged_within, Nav.init. cbn.
  repeat split; auto; try lia; try constructor; discriminate.
Qed.

Ltac split_ok :=
  unfold nav_ok in *;
  cbn [Nav.tables Nav.current_table Nav.current_page Nav.current_col_page
       Nav.current_table_page Nav.all_rows Nav.filtered_rows Nav.search_active
       Nav.search_query] in *;
  repeat match goal with
         | H : _ /\ _ |- _ => destruct H
         end;
  repeat match goal with
         | |- _ /\ _ => split
         end;
  try assumption; try discriminate.

Lemma select_turn_ok (nav : Nav.Navigator) (line : str) :
  nav_ok Nav.Selecting nav ->
  match Nav.select_table_turn nav line with
  | Nav.Continue nav' => nav_ok Nav.Selecting nav'
  | Nav.Break nav' => nav_ok Nav.Viewing nav'
  | _ => True
  end.
Proof.
  intros Hok. unfold Nav.select_table_turn. cbv zeta.
  destruct (Py.str_eqb _ "q"); [exact I|].
  destruct (Py.str_eqb _ "n").
  { destruct (_ <? _) eqn:E; [|exact Hok]. apply Z.ltb_lt in E. split_ok.
    apply next_page_within; unfold Nav.len, Nav.table_page_size in *;
      unfold paged_within in *; lia. }
  destruct (Py.str_eqb _ "p").
  { destruct (_ >? _) eqn:E; [|exact Hok]. apply Z.gtb_lt in E. split_ok.
    apply previous_page_within; [lia | assumption | lia]. }
  destruct (Py.str_eqb _ "s"); [exact I|].
  destruct (Py.all_digits _); [|exact Hok].
  destruct (Py.int _) as [table_num|]; [|exact I].
  destruct (_ && _); [|exact Hok].
  destruct (_ !! _) as [table_name|]; [|exact I].
  destruct (dict_get _ _) as [t|]; [|exact I].
  unfold Nav.choose. split_ok; unfold paged_within; try lia.
  - reflexivity.
  - intros _. exists t. split; [reflexivity|]. split; [reflexivity|].
    unfold paged_within. lia.
Qed.

Lemma sublist_len {A : Type} (l k : list A) :
  sublist l k -> Nav.len l <= Nav.len k.
Proof. intros H. apply sublist_length in H. unfold Nav.len. lia. Qed.

Lemma navigate_turn_ok (nav : Nav.Navigator) (line query_line : str) :
  nav_ok Nav.Viewing nav ->
  match Nav.navigate_turn float_repr nav line query_line with
  | Nav.Continue nav' => nav_ok Nav.Viewing nav'
  | Nav.Break nav' => nav_ok Nav.Selecting nav'
  | Nav.Exit => True
  | Nav.Raise => False
  end.
Proof.
  intros Hok. unfold Nav.navigate_turn. cbv zeta.
  assert (Hv : exists t, Nav.current_table nav = Some t
                         /\ Nav.all_rows nav = t_rows t
                         /\ paged_within (Nav.current_col_page nav) 5
                                         (Nav.len (t_columns t)))
    by (apply Hok; reflexivity).
  assert (Hsub : Nav.len (Nav.filtered_rows nav) <= Nav.len (Nav.all_rows nav))
    by (apply sublist_len, Hok).
  destruct (Py.str_eqb _ "n").
  { destruct (_ >=? _) eqn:E; [exact Hok|].
    assert ((Nav.current_page nav + 1) * Nav.page_size < Nav.len (Nav.filtered_rows nav))
      by (destruct (Z.geb_spec ((Nav.current_page nav + 1) * Nav.page_size)
                      (Nav.len (Nav.filtered_rows nav))); [discriminate | lia]).
    split_ok. unfold paged_within, Nav.page_size in *. split; [lia | right; lia]. }
  destruct (Py.str_eqb _ "p").
  { destruct (_ =? _) eqn:E; [exact Hok|]. apply Z.eqb_neq in E. split_ok.
    apply previous_page_within; [lia | assumption | assumption]. }
  destruct (Py.str_eqb _ "l").
  { destruct (_ >? _) eqn:E; [|exact Hok]. apply Z.gtb_lt in E.
    destruct Hv as (t & Ht & Hr & Hc). split_ok; [lia|].
    intros _. exists t. split; [assumption|]. split; [assumption|].
    apply previous_page_within; [lia | assumption | lia]. }
  destruct (Py.str_eqb _ "r").
  { destruct Hv as (t & Ht & Hr & Hc). rewrite Ht.
    destruct (_ <? _) eqn:E; [|exact Hok]. apply Z.ltb_lt in E.
    split_ok; [lia|].
    intros _. exists t. split; [reflexivity|]. split; [assumption|].
    apply next_page_within; unfold Nav.len, Nav.col_page_size in *;
      unfold paged_within in *; lia. }
  destruct (Py.str_eqb _ "s"); [split_ok|].
  destruct (Py.str_eqb _ "/").
  { destruct (Py.truthy _); [|exact Hok].
    pose proof (apply_row_search_sublist float_repr nav (Py.strip query_line)) as Hs.
    unfold Nav.apply_row_search in *. split_ok. }
  destruct (Py.str_eqb _ "c").
  { destruct (Nav.search_active nav); [|exact Hok].
    unfold Nav.clear_row_search. split_ok. reflexivity. }
  destruct (Py.str_eqb _ "q"); [exact I | exact Hok].
Qed.

Lemma navigate_ok (n : nat) :
  forall (lines : list str) (mode : Nav.Mode) (nav : Nav.Navigator),
    (length lines <= n)%nat ->
    nav_ok mode nav ->
    match Nav.navigate float_repr mode nav lines with
    | Nav.Waiting mode' nav' => nav_ok mode' nav'
    | _ => True
    end.
Proof.
  induction n as [|n IH]; intros lines mode nav Hlen Hok.
  - destruct lines; [exact Hok | cbn in Hlen; lia].
  - destruct lines as [|line rest]; [exact Hok|]. cbn [length] in Hlen.
    cbn [Nav.navigate]. destruct mode.
    + pose proof (select_turn_ok nav line Hok) as Hs.
      destruct (Nav.select_table_turn nav line); auto; apply IH; auto; lia.
    + destruct (Py.str_eqb _ "/").
      * destruct rest as [|query_line rest']; [exact Hok|]. cbn [length] in Hlen.
        pose proof (navigate_turn_ok nav line query_line Hok) as Hs.
        destruct (Nav.navigate_turn float_repr nav line query_line); auto;
          apply IH; auto; lia.
      * pose proof (navigate_turn_ok nav line [] Hok) as Hs.
        destruct (Nav.navigate_turn float_repr nav line []); auto;
          apply IH; auto; lia.
Qed.

End Commands.

(** X13: all along [navigate], whatever lines are typed: the table page
    and the row page are not negative and are the first page or start
    before the end of the tables and of the table's rows; the filtered
    rows are rows of the table, in their order; and while a table is
    viewed, it is set, so that no command of the inner loop raises, and
    its column page is in range. *)
Theorem X13_navigate_stays_in_range :
  forall (float_repr : spec_float -> str) (tables : Tables) (lines : list str)
         (mode : Nav.Mode) (nav : Nav.Navigator),
    Nav.navigate float_repr Nav.Selecting (Nav.init tables) lines
    = Nav.Waiting mode nav ->
    nav_ok mode nav
    /\ (mode = Nav.Viewing ->
        forall line query_line,
          Nav.navigate_turn float_repr nav line query_line <> Nav.Raise).
Proof.
  intros float_repr tables lines mode nav H.
  pose proof (navigate_ok float_repr (length lines) lines Nav.Selecting
                (Nav.init tables) (Nat.le_refl _) (init_ok tables)) as Hok.
  rewrite H in Hok. split; [exact Hok|].
  intros -> line query_line E.
  pose proof (navigate_turn_ok float_repr nav line query_line Hok) as Ht.
  rewrite E in Ht. exact Ht.
Qed.

Lemma X13_navigate_stays_in_range_witness : nav_ok Nav.Viewing sample_view.
Proof.
  apply (proj1 (X13_navigate_stays_in_range (fun _ => []) people
                  (strs ["1"; "r"; " N "; "/"; "al"]) Nav.Viewing sample_view
                  ltac:(vm_compute; reflexivity))).
Defined.

Section Select.

Lemma tables_on_page_lookup (nav : Nav.Navigator) (i : nat) (name : str) :
  0 <= Nav.current_table_page nav ->
  Nav.tables_on_page nav !! i = Some name ->
  (i < 20)%nat
  /\ map fst (Nav.tables nav)
       !! (Z.to_nat (Nav.current_table_page nav) * 20 + i)%nat = Some name.
Proof.
  intros Hp. unfold Nav.tables_on_page. cbv zeta.
  rewrite slice_list_page by (unfold Nav.table_page_size; lia).
  change (Z.to_nat Nav.table_page_size) with 20%nat.
  intros H. apply lookup_take_Some in H as [H Hi].
  rewrite lookup_drop in H. split; [exact Hi | exact H].
Qed.

End Select.

(** X14: a number typed at the table list chooses the table shown under
    that number on the page, and nothing else does: when a turn of
    [select_table] leaves the loop, the line read is a number from 1 to
    20, the table chosen is the one whose name stands at that place of
    the page in the registry's order, the row, column and table pages
    start again at 0 and the rows shown are all the rows of the table. *)
Theorem X14_select_by_number :
  forall (nav nav' : Nav.Navigator) (line : str),
    0 <= Nav.current_table_page nav ->
    Nav.select_table_turn nav line = Nav.Break nav' ->
    exists (table_num : Z) (name : str) (t : Table),
      Py.int (Py.lower (Py.strip line)) = Some table_num
      /\ 1 <= table_num <= 20
      /\ map fst (Nav.tables nav)
           !! Z.to_nat (Nav.current_table_page nav * 20 + table_num - 1)
         = Some name
      /\ dict_get (Nav.tables nav) name = Some t
      /\ nav' = Nav.mkNav (Nav.tables nav) (Some t) 0 0 0 (t_rows t) (t_rows t)
                          false (Nav.search_query nav).
Proof.
  intros nav nav' line Hp. unfold Nav.select_table_turn. cbv zeta.
  destruct (Py.str_eqb _ "q"); [discriminate|].
  destruct (Py.str_eqb _ "n"); [destruct (_ <? _); discriminate|].
  destruct (Py.str_eqb _ "p"); [destruct (_ >? _); discriminate|].
  destruct (Py.str_eqb _ "s"); [discriminate|].
  destruct (Py.all_digits _); [|discriminate].
  destruct (Py.int _) as [table_num|] eqn:Hint; [|discriminate].
  destruct (_ && _) eqn:Hc; [|discriminate].
  destruct (_ !! _) as [table_name|] eqn:Hl; [|discriminate].
  destruct (dict_get _ _) as [t|] eqn:Ht; [|discriminate].
  intros [= <-]. apply andb_true_iff in Hc as [H1 H2].
  apply Z.leb_le in H1. apply Z.leb_le in H2.
  apply tables_on_page_lookup in Hl as [Hi Hl]; [|exact Hp].
  exists table_num, table_name, t. repeat split; auto; try lia.
  rewrite <- Hl. f_equal. lia.
Qed.

Lemma X14_select_by_number_witness :
  exists (table_num : Z) (name : str) (t : Table),
    Py.int (Py.lower (Py.strip " 1 ")) = Some table_num
    /\ 1 <= table_num <= 20
    /\ map fst (Nav.tables (Nav.init people))
         !! Z.to_nat (Nav.current_table_page (Nav.init people) * 20 + table_num - 1)
       = Some name
    /\ dict_get (Nav.tables (Nav.init people)) name = Some t
    /\ Nav.choose (Nav.init people)
         (mkTable (strs ["id"; "name"; "age"]) [[Integer 1; Text "Al"; Integer 30]])
       = Nav.mkNav (Nav.tables (Nav.init people)) (Some t) 0 0 0 (t_rows t) (t_rows t)
                   false (Nav.search_query (Nav.init people)).
Proof.
  apply (X14_select_by_number (Nav.init people) _ " 1 ").
  - vm_compute. discriminate.
  - vm_compute. reflexivity.
Defined.

(** ** The column widths of [display_page] *)

Section Widths.

Variable float_repr : spec_float -> str.
Variable data : list (list Value).

Lemma widths_absent (col : str) (l : list (nat * str)) :
  (forall i, (i, col) ∉ l) ->
  forall d : gmap str Z,
    fold_left (width_put float_repr data) l d !! col = d !! col.
Proof.
  induction l as [|[i0 c0] l IH]; intros Hno d; [reflexivity|].
  cbn [fold_left]. rewrite IH.
  - unfold width_put. cbn. apply lookup_insert_ne.
    intros ->. apply (Hno i0). left.
  - intros i Hi. apply (Hno i). now right.
Qed.

Lemma widths_lookup (columns : list str) :
  forall (start idx : nat) (col : str) (d : gmap str Z),
    NoDup columns ->
    columns !! idx = Some col ->
    fold_left (width_put float_repr data)
              (zip (seq start (length columns)) columns) d !! col
    = Some (Nav.col_width float_repr data (start + idx) col).
Proof.
  induction columns as [|c cs IH]; intros start idx col d Hnd Hidx;
    [discriminate|].
  apply NoDup_cons in Hnd as [Hc Hnd]. cbn [length seq zip_with fold_left].
  destruct idx as [|idx].
  - injection Hidx as ->. rewrite widths_absent.
    + unfold width_put. cbn. rewrite Nat.add_0_r. apply lookup_insert_eq.
    + intros i Hi. apply elem_of_zip_r in Hi. contradiction.
  - rewrite (IH (S start) idx col _ Hnd Hidx). do 2 f_equal. lia.
Qed.

Lemma widen_reaches (idx : nat) (m : Z) (row : list Value) (val : Value) :
  row !! idx = Some val ->
  Z.min (Nav.len (Nav.val_str float_repr val)) 30
  <= Nav.widen float_repr idx m row.
Proof.
  intros H. unfold Nav.widen. rewrite H.
  destruct (_ >? _) eqn:E; [lia|].
  destruct (Z.gtb_spec (Nav.len (Nav.val_str float_repr val)) m); [discriminate | lia].
Qed.

Lemma widen_keeps (idx : nat) (m b : Z) (row : list Value) :
  b <= 30 -> b <= m -> b <= Nav.widen float_repr idx m row.
Proof.
  intros Hb Hm. unfold Nav.widen. destruct (row !! idx) as [val|]; [|exact Hm].
  destruct (_ >? _) eqn:E; [|exact Hm].
  destruct (Z.gtb_spec (Nav.len (Nav.val_str float_repr val)) m); [lia | discriminate].
Qed.

Lemma widen_below (idx : nat) (m : Z) (row : list Value) :
  m <= 30 -> Nav.widen float_repr idx m row <= 30.
Proof.
  intros Hm. unfold Nav.widen. destruct (row !! idx) as [val|]; [|exact Hm].
  destruct (_ >? _); lia.
Qed.

Lemma widen_fold_keeps (idx : nat) (b : Z) (rows : list (list Value)) :
  b <= 30 ->
  forall m, b <= m -> b <= fold_left (Nav.widen float_repr idx) rows m.
Proof.
  intros Hb. induction rows as [|row rows IH]; intros m Hm; [exact Hm|].
  cbn [fold_left]. apply IH, widen_keeps; assumption.
Qed.

Lemma widen_fold_below (idx : nat) (rows : list (list Value)) :
  forall m, m <= 30 -> fold_left (Nav.widen float_repr idx) rows m <= 30.
Proof.
  induction rows as [|row rows IH]; intros m Hm; [exact Hm|].
  cbn [fold_left]. apply IH, widen_below, Hm.
Qed.

Lemma widen_fold_reaches (idx : nat) (row : list Value) (val : Value)
      (rows : list (list Value)) :
  In row rows -> row !! idx = Some val ->
  forall m,
    Z.min (Nav.len (Nav.val_str float_repr val)) 30
    <= fold_left (Nav.widen float_repr idx) rows m.
Proof.
  intros Hin Hval. induction rows as [|r rows IH]; intros m; [destruct Hin|].
  cbn [fold_left]. destruct Hin as [->|Hin]; [|apply IH, Hin].
  apply widen_fold_keeps; [lia|]. apply widen_reaches, Hval.
Qed.

Lemma cell_text_len (val : Value) :
  Nav.len (Nav.cell_text float_repr val)
  = Z.min (Nav.len (Nav.val_str float_repr val)) 30.
Proof.
  unfold Nav.cell_text. cbv zeta.
  destruct (_ >? _) eqn:E.
  - destruct (Z.gtb_spec (Nav.len (Nav.val_str float_repr val)) 30);
      [|discriminate].
    rewrite slice_list_nonneg by lia. unfold Nav.len in *.
    rewrite length_app, length_take, length_drop. cbn [length].
    change (length (list_ascii_of_string "...")) with 3%nat. lia.
  - destruct (Z.gtb_spec (Nav.len (Nav.val_str float_repr val)) 30);
      [discriminate | lia].
Qed.

End Widths.

(** X15: with distinct column names on display, the width kept for a
    column is the one computed for it, and every cell shown in the column,
    cut to 30 characters, fits the width with the two characters of
    padding to spare; a column whose name has at most 30 characters is at
    least as wide as its name and two, and at most 32 wide. *)
Theorem X15_cells_fit_columns :
  forall (float_repr : spec_float -> str) (columns : list str)
         (data : list (list Value)) (idx : nat) (col : str),
    NoDup columns ->
    columns !! idx = Some col ->
    Nav.col_widths float_repr columns data !! col
    = Some (Nav.col_width float_repr data idx col)
    /\ (forall (row : list Value) (val : Value),
           In row data -> row !! idx = Some val ->
           Nav.len (Nav.cell_text float_repr val) + 2
           <= Nav.col_width float_repr data idx col)
    /\ (Nav.len col <= 30 ->
        Nav.len col + 2 <= Nav.col_width float_repr data idx col <= 32).
Proof.
  intros float_repr columns data idx col Hnd Hidx. repeat split.
  - apply (widths_lookup float_repr data columns 0 idx col ∅ Hnd Hidx).
  - intros row val Hin Hval. rewrite cell_text_len. unfold Nav.col_width.
    pose proof (widen_fold_reaches float_repr idx row val data Hin Hval
                  (Nav.len col)). lia.
  - unfold Nav.col_width.
    pose proof (widen_fold_keeps float_repr idx (Nav.len col) data H
                  (Nav.len col) (Z.le_refl _)). lia.
  - unfold Nav.col_width.
    pose proof (widen_fold_below float_repr idx data (Nav.len col) H). lia.
Qed.

Lemma X15_cells_fit_columns_witness :
  Nav.len (Nav.cell_text (fun _ => []) (Text "a text of more than thirty characters")) + 2
  <= Nav.col_width (fun _ => [])
       [[Integer 1; Text "a text of more than thirty characters"]; [Integer 2]]
       1 "name".
Proof.
  apply (proj1 (proj2 (X15_cells_fit_columns (fun _ => []) (strs ["id"; "name"])
                         [[Integer 1; Text "a text of more than thirty characters"]; [Integer 2]]
                         1 "name"
                         ltac:(apply (bool_decide_unpack _); vm_compute; reflexivity)
                         eq_refl))
               [Integer 1; Text "a text of more than thirty characters"]).
  - left. reflexivity.
  - reflexivity.
Defined.

(** * Integers written and read back *)

Section Integers.

Lemma digits_of_all_digits (d : Decimal.uint) :
  forallb Py.isdigit (digits_of d) = true.
Proof.
  induction d as [|d IH|d IH|d IH|d IH|d IH|d IH|d IH|d IH|d IH|d IH];
    [reflexivity|..]; exact IH.
Qed.

Lemma digit_step_fold (d : Decimal.uint) :
  forall acc : positive,
    fold_left digit_step (digits_of d) (Zpos acc) = Zpos (Pos.of_uint_acc d acc).
Proof.
  induction d as [|d IH|d IH|d IH|d IH|d IH|d IH|d IH|d IH|d IH|d IH];
    intros acc; [reflexivity|..];
    cbn [Pos.of_uint_acc]; rewrite <- IH;
    change (digits_of (_ d)) with (_ :: digits_of d) || idtac;
    unfold digits_of; cbn [DecimalString.NilEmpty.string_of_uint
                             list_ascii_of_string fold_left];
    f_equal; unfold digit_step;
    match goal with
    | |- context [Py.digit_val ?c] =>
        let v := eval vm_compute in (Py.digit_val c) in
        change (Py.digit_val c) with v
    end; lia.
Qed.

Lemma digits_val_of (d : Decimal.uint) :
  Py.digits_val (digits_of d) = Z.of_N (Pos.of_uint d).
Proof.
  unfold Py.digits_val. change (fun acc c => 10 * acc + Py.digit_val c) with digit_step.
  induction d as [|d IH|d IH|d IH|d IH|d IH|d IH|d IH|d IH|d IH|d IH];
    [reflexivity | exact IH | ..];
    unfold digits_of;
    cbn [DecimalString.NilEmpty.string_of_uint list_ascii_of_string fold_left
         Pos.of_uint];
    match goal with
    | |- fold_left _ _ ?z = _ =>
        let v := eval vm_compute in z in change z with v
    end;
    apply digit_step_fold.
Qed.

Lemma str_of_int_pos (p : positive) :
  str_of_int (Zpos p) = digits_of (Pos.to_uint p).
Proof.
  unfold str_of_int, digits_of. cbn [Z.to_int DecimalString.NilZero.string_of_int].
  unfold DecimalString.NilZero.string_of_uint.
  pose proof (DecimalPos.Unsigned.to_uint_nonnil p) as Hn.
  destruct (Pos.to_uint p); [contradiction | reflexivity..].
Qed.

Lemma str_of_int_neg (p : positive) :
  str_of_int (Zneg p) = "-"%char :: digits_of (Pos.to_uint p).
Proof.
  unfold str_of_int, digits_of. cbn [Z.to_int DecimalString.NilZero.string_of_int].
  unfold DecimalString.NilZero.string_of_uint.
  pose proof (DecimalPos.Unsigned.to_uint_nonnil p) as Hn.
  destruct (Pos.to_uint p); [contradiction | reflexivity..].
Qed.

Lemma digits_val_to_uint (p : positive) :
  Py.digits_val (digits_of (Pos.to_uint p)) = Zpos p.
Proof. now rewrite digits_val_of, DecimalPos.Unsigned.of_to. Qed.

Lemma digit_facts (c : ascii) :
  Py.isdigit c = true ->
  Py.isspace c = false /\ Py.ceqb (Py.upper_char c) "N" = false
  /\ Py.ceqb "'" c = false /\ Py.ceqb c "-" = false.
Proof.
  destruct c as [[] [] [] [] [] [] [] []]; vm_compute; intros H;
    try discriminate H; repeat split.
Qed.

Lemma int_of_digits (c : ascii) (s : str) :
  Py.isdigit c = true ->
  Py.int (c :: s)
  = if Py.all_digits (c :: s) && Nat.leb (length (c :: s)) Py.max_str_digits
    then Some (Py.digits_val (c :: s)) else None.
Proof.
  destruct c as [[] [] [] [] [] [] [] []]; intros H;
    try discriminate H; reflexivity.
Qed.

(** The greedy star of [\d] runs to the end of a text of digits. *)
Lemma star_digits {R : Type} (whole : str) (k : str -> caps -> option R) (g : caps) :
  k [] g <> None ->
  forall (ds : str) (n : nat),
    forallb Py.isdigit ds = true -> (length ds <= n)%nat ->
    star_loop true (fun s' g' k' => run whole digit s' g' k') k n ds g <> None.
Proof.
  intros Hk. induction ds as [|c ds IH]; intros n Hd Hn.
  - destruct n; cbn [star_loop]; [exact Hk|]. cbv zeta. cbn [run digit]. exact Hk.
  - destruct n as [|n]; [cbn in Hn; lia|].
    cbn [forallb] in Hd. apply andb_true_iff in Hd as [Hc Hd].
    cbn [star_loop]. cbv zeta. unfold digit at 1. cbn [run]. rewrite Hc.
    assert (E : Nat.ltb (length ds) (length (c :: ds)) = true)
      by (apply Nat.ltb_lt; cbn; lia).
    rewrite E.
    specialize (IH n Hd ltac:(cbn in Hn; lia)).
    destruct (star_loop true _ k n ds g); [discriminate | contradiction].
Qed.

Lemma int_regex_digits (c : ascii) (ds : str) :
  Py.isdigit c = true -> forallb Py.isdigit ds = true ->
  matched (re_match int_regex (c :: ds)) = true
  /\ matched (re_match int_regex ("-"%char :: c :: ds)) = true.
Proof.
  intros Hc Hd. destruct (digit_facts c Hc) as (_ & _ & _ & Hm).
  assert (Hs : forall whole g,
             star_loop true (fun s' g' k' => run whole digit s' g' k')
               (fun s' g' =>
                  run whole Eol s' g'
                      (fun s'' g'' =>
                         Some (mkMatch (length whole - length whole)
                                       (length whole - length s'')
                                       (firstn (length whole - length s'') whole) g'')))
               (length ds) ds g <> None)
    by (intros whole g; apply star_digits; [discriminate | exact Hd | lia]).
  split; unfold re_match, match_at, int_regex;
    cbn [seqs run Plus Opt chr]; rewrite Nat.eqb_refl.
  - rewrite Hm. unfold digit at 1. cbn [run]. rewrite Hc.
    specialize (Hs (c :: ds) []).
    destruct (star_loop _ _ _ _ _ _); [reflexivity | contradiction].
  - change (Py.ceqb "-" "-") with true. cbv iota.
    unfold digit at 1. cbn [run]. rewrite Hc.
    specialize (Hs ("-"%char :: c :: ds) []).
    destruct (star_loop _ _ _ _ _ _); [reflexivity | contradiction].
Qed.

(** A token of digits, with or without a minus sign before them, is
    coerced to the integer the digits denote. *)
Lemma coerce_digits (c : ascii) (ds : str) :
  Py.isdigit c = true -> forallb Py.isdigit ds = true ->
  (length (c :: ds) <= Py.max_str_digits)%nat ->
  coerce_token (c :: ds) = Some (Integer (Py.digits_val (c :: ds)))
  /\ coerce_token ("-"%char :: c :: ds)
     = Some (Integer (- Py.digits_val (c :: ds))).
Proof.
  intros Hc Hd Hlen.
  destruct (digit_facts c Hc) as (Hsp & Hn & Hq & Hm).
  destruct (int_regex_digits c ds Hc Hd) as [Hr Hr'].
  assert (Hall : Py.all_digits (c :: ds) = true)
    by (unfold Py.all_digits; cbn [Py.truthy forallb]; now rewrite Hc, Hd).
  assert (Hle : Nat.leb (length (c :: ds)) Py.max_str_digits = true)
    by (apply Nat.leb_le; exact Hlen).
  assert (Hnosp : forall x, In x (c :: ds) -> Py.isspace x = false).
  { intros x [<-|Hx]; [exact Hsp|].
    rewrite forallb_forall in Hd. apply digit_facts, Hd, Hx. }
  split; unfold coerce_token, Py.strip.
  - rewrite strip_by_keep by exact Hnosp.
    cbn [Py.truthy negb]. 
    change (Py.str_eqb (Py.upper (c :: ds)) "NULL")
      with (Py.ceqb (Py.upper_char c) "N" && Py.str_eqb (Py.upper ds) "ULL").
    rewrite Hn. cbn [andb].
    change (Py.startswith (c :: ds) "'") with (Py.ceqb "'" c && true).
    rewrite Hq. cbn [andb]. rewrite Hr.
    rewrite (int_of_digits c ds Hc), Hall, Hle. reflexivity.
  - rewrite strip_by_keep
      by (intros x [<-|Hx]; [reflexivity | apply Hnosp, Hx]).
    cbn [Py.truthy negb].
    change (Py.str_eqb (Py.upper ("-"%char :: c :: ds)) "NULL") with false.
    change (Py.startswith ("-"%char :: c :: ds) "'") with false.
    cbn [andb]. rewrite Hr'.
    change (Py.int ("-"%char :: c :: ds))
      with (if Py.all_digits (c :: ds) && Nat.leb (length (c :: ds)) Py.max_str_digits
            then Some (- Py.digits_val (c :: ds)) else None).
    rewrite Hall, Hle. reflexivity.
Qed.

End Integers.

(** X16: an integer written by [str] and read as a token gives the
    integer back, as long as it has at most 4300 digits (the most [int]
    reads). *)
Theorem X16_integer_round_trip :
  forall n : Z,
    (length (str_of_int (Z.abs n)) <= Py.max_str_digits)%nat ->
    coerce_token (str_of_int n) = Some (Integer n).
Proof.
  intros [|p|p] Hlen.
  - vm_compute. reflexivity.
  - change (Z.abs (Z.pos p)) with (Z.pos p) in Hlen.
    rewrite str_of_int_pos in Hlen. rewrite str_of_int_pos.
    pose proof (digits_of_all_digits (Pos.to_uint p)) as Hd.
    pose proof (digits_val_to_uint p) as Hv.
    destruct (digits_of (Pos.to_uint p)) as [|c ds] eqn:E.
    + discriminate Hv.
    + cbn [forallb] in Hd. apply andb_true_iff in Hd as [Hc Hd].
      rewrite (proj1 (coerce_digits c ds Hc Hd Hlen)), Hv. reflexivity.
  - change (Z.abs (Z.neg p)) with (Z.pos p) in Hlen.
    rewrite str_of_int_pos in Hlen. rewrite str_of_int_neg.
    pose proof (digits_of_all_digits (Pos.to_uint p)) as Hd.
    pose proof (digits_val_to_uint p) as Hv.
    destruct (digits_of (Pos.to_uint p)) as [|c ds] eqn:E.
    + discriminate Hv.
    + cbn [forallb] in Hd. apply andb_true_iff in Hd as [Hc Hd].
      rewrite (proj2 (coerce_digits c ds Hc Hd Hlen)), Hv. reflexivity.
Qed.

Lemma X16_integer_round_trip_witness :
  coerce_token (str_of_int (-2024)) = Some (Integer (-2024)).
Proof. apply (X16_integer_round_trip (-2024)). vm_compute. lia. Defined.
